(** * The circle directive of leaflet-ng2 (src/ts/circle.directive.ts)

    [CircleDirective<T>] extends Leaflet's [Circle] and exposes it to an
    Angular template: property setters call the inherited Leaflet methods and
    then emit on Angular [EventEmitter]s, and listeners registered with
    [this.on] re-emit Leaflet's events.

    The embedding is a state-and-exception monad over the directive object.
    What the class inherits from Leaflet (and the helper [lng2lat], which
    lives in another file of the package) is not part of the file under
    study: it is taken as an interface, [Leaflet], over which every
    definition and theorem is parametric.  A small executable instance,
    [leaflet], follows what the Leaflet 1.0.3 reference documents for these
    methods; it is used to run the directive on concrete inputs only.

    The interface says what a call into Leaflet does when it returns.  The
    calls that were seen not to return, the third outcome of
    [getElement] and Leaflet's own listeners on the object are a second
    interface, [Hazards]; the methods that contain them are embedded again
    over both, in [Raising], and the statements that depend on whether a
    call returns are about those. *)

From Stdlib Require Import PrimFloat List.
From stdpp Require Import base option list strings gmap functions.
Import ListNotations.

Open Scope string_scope.
Open Scope list_scope.
Set Warnings "-register-all".

(** ** Data *)

(** A JavaScript number is an IEEE 754 double. *)
Definition number := float.

(** The JavaScript values that travel through the directive untouched:
    style values, feature properties, event payloads. *)
Inductive Value :=
| VUndefined
| VNull
| VBool (b : bool)
| VNum (n : number)
| VStr (s : string)
| VObj (fields : list (string * Value)).

(** JavaScript truthiness, for [x || y]. *)
Definition truthy (v : Value) : bool :=
  match v with
  | VUndefined | VNull => false
  | VBool b => b
  | VNum n => negb (PrimFloat.eqb n 0 || PrimFloat.is_nan n)
  | VStr s => negb (String.eqb s "")
  | VObj _ => true
  end.

(** [x || y] *)
Definition or_else (x y : Value) : Value := if truthy x then x else y.

(** Leaflet's [LatLng], and the three shapes a position is accepted in:
    [LatLng | LatLngTuple | LatLngLiteral]. *)
Record LatLng := { lat : number; lng : number }.

Inductive LatLngExpression :=
| Native (l : LatLng)
| Tuple (lat lng : number)
| Literal (lat lng : number).

(** The position a [LatLngExpression] denotes ([L.latLng(val)]). *)
Definition toLatLng (val : LatLngExpression) : LatLng :=
  match val with
  | Native l => l
  | Tuple a b => {| lat := a; lng := b |}
  | Literal a b => {| lat := a; lng := b |}
  end.

(** [PathOptions]: a JavaScript object used as a map from option name to
    value.  [style.hasOwnProperty(k)] is [hasOwnProperty style k] and
    [style.k] is [prop style k] ([undefined] when the key is absent). *)
Abbreviation PathOptions := (gmap string Value).

Definition hasOwnProperty (style : PathOptions) (k : string) : bool :=
  bool_decide (is_Some (style !! k)).

Definition prop (style : PathOptions) (k : string) : Value :=
  default VUndefined (style !! k).

Arguments hasOwnProperty : simpl never.
Arguments prop : simpl never.

(** [GenericGeoJSONFeature<GeoJSON.Point, T>]; a [T] is any value. *)
Record Geometry := { gtype : string; coordinates : list number }.
Record Feature := { properties : Value; geometry : Geometry }.

(** References to the objects the directive only passes around. *)
Definition MapComponent := nat.
Definition PopupDirective := nat.
Definition TooltipDirective := nat.
Definition ElementRef := nat.

(** The part of an [HTMLElement] the directive looks at:
    [container.style.display] and [container.parentElement]. *)
Record HTMLElement := {
  style_display : string;
  parentElement : option ElementRef
}.

(** The payload of a Leaflet event is an opaque object. *)
Definition LeafletEvent := Value.

(** ** Outputs

    The twelve emitters that re-emit a Leaflet event, by their names in the
    class. *)
Inductive EventOutput :=
| addEvent
| removeEvent
| popupopenEvent
| popupcloseEvent
| tooltipopenEvent
| tooltipcloseEvent
| clickEvent
| dbclickEvent
| mousedownEvent
| mouseoverEvent
| mouseoutEvent
| contextmenuEvent.

(** One constructor per [@Output()] emitter of the class; [xChange v] stands
    for [this.xChange.emit(v)] and [emitEvent xEvent e] for
    [this.xEvent.emit(e)]. *)
Inductive Emission :=
| displayChange (v : bool)
| strokeChange (v : Value)
| colorChange (v : Value)
| weightChange (v : Value)
| opacityChange (v : Value)
| lineCapChange (v : Value)
| lineJoinChange (v : Value)
| dashArrayChange (v : Value)
| dashOffsetChange (v : Value)
| fillChange (v : Value)
| fillColorChange (v : Value)
| fillOpacityChange (v : Value)
| fillRuleChange (v : Value)
| classNameChange (v : Value)
| styleChange (v : PathOptions)
| positionChange (v : LatLng)
| latChange (v : number)
| lngChange (v : number)
| radiusChange (v : number)
| geoJSONChange (v : Feature)
| emitEvent (out : EventOutput) (e : LeafletEvent).

(** The two kinds of function the class passes to [this.on]:
    [() => { this.displayChange.emit(v); }] and
    [(event) => { this.out.emit(event); }]. *)
Inductive Callback :=
| emit_display (v : bool)
| emit_event (out : EventOutput).

Definition call (fn : Callback) (event : LeafletEvent) : Emission :=
  match fn with
  | emit_display v => displayChange v
  | emit_event out => emitEvent out event
  end.

(** ** State *)

(** The inherited [Circle]: the fields the directive reads and writes
    directly ([this._latlng], [this.options], [this.feature], [this._map]),
    two fields private to Leaflet that the directive reaches through
    [getRadius] and [getElement] only ([_mRadius], and [_path], the handle of
    the element the renderer drew), and the DOM nodes, by reference, so that
    a write through one reference is seen through every other. *)
Record Primitive := {
  _latlng : LatLng;
  options : PathOptions;
  feature : option Feature;
  _map : option MapComponent;
  _mRadius : number;
  _path : option ElementRef;
  dom : ElementRef → HTMLElement
}.

(** A listener registered with [this.on(type, fn)]. *)
Definition Listener := (string * Callback)%type.

(** The directive object: the inherited primitive, the listeners, the
    private flag, the two content children, and the outputs emitted so far,
    oldest first. *)
Record CircleDirective := {
  prim : Primitive;
  listeners : list Listener;
  initialized : bool;
  popupDirective : option PopupDirective;
  tooltipDirective : option TooltipDirective;
  emitted : list Emission
}.

Definition with_prim (f : Primitive → Primitive) (d : CircleDirective) : CircleDirective :=
  {| prim := f (prim d); listeners := listeners d; initialized := initialized d;
     popupDirective := popupDirective d; tooltipDirective := tooltipDirective d;
     emitted := emitted d |}.

Definition with_emitted (f : list Emission → list Emission) (d : CircleDirective) :
    CircleDirective :=
  {| prim := prim d; listeners := listeners d; initialized := initialized d;
     popupDirective := popupDirective d; tooltipDirective := tooltipDirective d;
     emitted := f (emitted d) |}.

Definition with_listeners (f : list Listener → list Listener) (d : CircleDirective) :
    CircleDirective :=
  {| prim := prim d; listeners := f (listeners d); initialized := initialized d;
     popupDirective := popupDirective d; tooltipDirective := tooltipDirective d;
     emitted := emitted d |}.

Definition with_initialized (b : bool) (d : CircleDirective) : CircleDirective :=
  {| prim := prim d; listeners := listeners d; initialized := b;
     popupDirective := popupDirective d; tooltipDirective := tooltipDirective d;
     emitted := emitted d |}.

Definition with_options (f : PathOptions → PathOptions) (p : Primitive) : Primitive :=
  {| _latlng := _latlng p; options := f (options p); feature := feature p;
     _map := _map p; _mRadius := _mRadius p; _path := _path p; dom := dom p |}.

Definition with_feature (f : option Feature) (p : Primitive) : Primitive :=
  {| _latlng := _latlng p; options := options p; feature := f;
     _map := _map p; _mRadius := _mRadius p; _path := _path p; dom := dom p |}.

Definition with_dom (f : (ElementRef → HTMLElement) → (ElementRef → HTMLElement))
    (p : Primitive) : Primitive :=
  {| _latlng := _latlng p; options := options p; feature := feature p;
     _map := _map p; _mRadius := _mRadius p; _path := _path p; dom := f (dom p) |}.

(** ** Methods: state and exceptions

    A method runs on the directive and either returns or throws; in both
    cases the writes it made stay. *)
Inductive JsError :=
| Error (message : string)
| TypeError (message : string).

Inductive Completion (A : Type) :=
| Normal (a : A) (d : CircleDirective)
| Abrupt (e : JsError) (d : CircleDirective).
Arguments Normal {A} a d.
Arguments Abrupt {A} e d.

Definition Method (A : Type) := CircleDirective → Completion A.

Definition ret {A} (a : A) : Method A := fun d => Normal a d.

Definition bind {A B} (m : Method A) (k : A → Method B) : Method B :=
  fun d => match m d with
           | Normal a d' => k a d'
           | Abrupt e d' => Abrupt e d'
           end.

Definition throw {A} (e : JsError) : Method A := fun d => Abrupt e d.

Declare Scope method_scope.
Delimit Scope method_scope with method.
Notation "x <- m ;; k" := (bind m (fun x => k))
  (at level 100, m at next level, right associativity) : method_scope.
Notation "m ;; k" := (bind m (fun _ => k))
  (at level 100, right associativity) : method_scope.
Open Scope method_scope.

Definition read {A} (f : CircleDirective → A) : Method A := fun d => Normal (f d) d.
Definition write (f : CircleDirective → CircleDirective) : Method unit :=
  fun d => Normal tt (f d).

(** [if (c) { m }] *)
Definition when (c : bool) (m : Method unit) : Method unit :=
  if c then m else ret tt.

(** [this.out.emit(v)] *)
Definition emit (e : Emission) : Method unit :=
  write (with_emitted (fun l => l ++ [e])).

(** The directive after a method ran, however it completed, and what the
    method added to the outputs. *)
Definition state_of {A} (c : Completion A) : CircleDirective :=
  match c with Normal _ d => d | Abrupt _ d => d end.

Definition run {A} (m : Method A) (d : CircleDirective) : CircleDirective :=
  state_of (m d).

Definition emissions {A} (m : Method A) (d : CircleDirective) : list Emission :=
  drop (length (emitted d)) (emitted (run m d)).

(** ** Leaflet's events

    [fire(type, e)] calls the listeners registered for [type], in the order
    of their registration. *)
Definition heard (ls : list Listener) (ev : string * LeafletEvent) : list Emission :=
  map (fun l => call (snd l) (snd ev))
    (List.filter (fun l => String.eqb (fst l) (fst ev)) ls).

Definition fire (type : string) (e : LeafletEvent) : Method unit :=
  fun d => Normal tt (with_emitted (fun l => l ++ heard (listeners d) (type, e)) d).

(** [this.on(type, fn)] *)
Definition on (type : string) (fn : Callback) : Method unit :=
  write (with_listeners (fun ls => ls ++ [(type, fn)])).

(** The events a call into Leaflet fired, oldest first, each with its type
    and payload. *)
Definition Fired := list (string * LeafletEvent).

Fixpoint fire_all (evs : Fired) : Method unit :=
  match evs with
  | [] => ret tt
  | (type, e) :: evs => fire type e ;; fire_all evs
  end.

(** A call into Leaflet ([super.m(...)], [this.m(...)] for an inherited
    [m], [mapComponent.addLayer(this)]): it updates the primitive and may
    fire events on it before it returns. *)
Definition invoke (call : Primitive → Primitive * Fired) : Method unit :=
  fun d => let '(p, evs) := call (prim d) in fire_all evs (with_prim (fun _ => p) d).

(** ** What the directive inherits and imports

    Every method of Leaflet that the class calls, and [lng2lat] of
    [./lng2lat].  A method that changes the primitive returns the new
    primitive and the events it fired meanwhile.  [getElement] is the one
    call whose failure the class handles ([try]/[catch]): [None] stands for
    a throw; the other calls are taken to return. *)
Record Leaflet := {
  (** [super(latlng)] *)
  Circle_new : LatLngExpression → Primitive;
  (** [super.setLatLng(val)] *)
  Circle_setLatLng : LatLngExpression → Primitive → Primitive * Fired;
  (** [super.setRadius(val)], [this.getRadius()] *)
  Circle_setRadius : number → Primitive → Primitive * Fired;
  getRadius : Primitive → number;
  (** [super.setStyle(style)] *)
  Path_setStyle : PathOptions → Primitive → Primitive * Fired;
  (** [this.toGeoJSON()] *)
  toGeoJSON : Primitive → Feature;
  (** [this.getElement()] *)
  getElement : Primitive → option ElementRef;
  (** [this.onRemove(map)], [this.onAdd(map)], [this.removeFrom(map)] *)
  onRemove : option MapComponent → Primitive → Primitive * Fired;
  onAdd : option MapComponent → Primitive → Primitive * Fired;
  removeFrom : option MapComponent → Primitive → Primitive * Fired;
  (** [this.bindPopup(popup)], [this.bindTooltip(tooltip)] *)
  bindPopup : PopupDirective → Primitive → Primitive * Fired;
  bindTooltip : TooltipDirective → Primitive → Primitive * Fired;
  (** [mapComponent.addLayer(this)] *)
  addLayer : MapComponent → Primitive → Primitive * Fired;
  (** [lng2lat(coordinates)] *)
  lng2lat : list number → LatLngExpression
}.

(** ** The class *)

Section Directive.

Variable L : Leaflet.

(** [this.feature.properties = v]; a [TypeError] when [this.feature] is
    undefined. *)
Definition assign_properties (v : Value) : Method unit :=
  fun d =>
    match feature (prim d) with
    | Some f =>
        Normal tt (with_prim (with_feature
          (Some {| properties := v; geometry := geometry f |})) d)
    | None => Abrupt (TypeError "Cannot set property 'properties' of undefined") d
    end.

(** The object before the body of the constructor runs: [super([0, 0])] and
    the field initialisers. *)
Definition allocated : CircleDirective :=
  {| prim := Circle_new L (Tuple 0%float 0%float); listeners := []; initialized := false;
     popupDirective := None; tooltipDirective := None; emitted := [] |}.

Definition empty_feature : Feature :=
  {| properties := VObj []; geometry := {| gtype := "Point"; coordinates := [] |} |}.

Definition constructor_body (mapComponent : MapComponent) : Method unit :=
  write (with_prim (fun p => with_feature (Some (default empty_feature (feature p))) p)) ;;
  write (with_prim (fun p => with_feature
    ((fun f => {| properties := or_else (properties f) (VObj []);
                  geometry := geometry f |}) <$> feature p) p)) ;;
  on "remove" (emit_display false) ;;
  on "add" (emit_display true) ;;
  invoke (addLayer L mapComponent) ;;
  on "add" (emit_event addEvent) ;;
  on "remove" (emit_event removeEvent) ;;
  on "popupopen" (emit_event popupopenEvent) ;;
  on "popupclose" (emit_event popupcloseEvent) ;;
  on "tooltipopen" (emit_event tooltipopenEvent) ;;
  on "tooltipclose" (emit_event tooltipcloseEvent) ;;
  on "click" (emit_event clickEvent) ;;
  on "dbclick" (emit_event dbclickEvent) ;;
  on "mousedown" (emit_event mousedownEvent) ;;
  on "mouseover" (emit_event mouseoverEvent) ;;
  on "mouseout" (emit_event mouseoutEvent) ;;
  on "contextmenu" (emit_event contextmenuEvent).

Definition constructor (mapComponent : MapComponent) : CircleDirective :=
  run (constructor_body mapComponent) allocated.

Definition ngAfterContentInit : Method unit :=
  write (with_initialized true) ;;
  popup <- read popupDirective ;;
  match popup with
  | Some p => invoke (bindPopup L p)
  | None => ret tt
  end ;;
  tooltip <- read tooltipDirective ;;
  match tooltip with
  | Some t => invoke (bindTooltip L t)
  | None => ret tt
  end.

Definition ngOnDestroy : Method unit :=
  map <- read (fun d => _map (prim d)) ;;
  invoke (removeFrom L map).

(** [get geoJSON] *)
Definition get_geoJSON : Method Feature :=
  read (fun d => toGeoJSON L (prim d)).

Definition setLatLng (val : LatLngExpression) : Method unit :=
  invoke (Circle_setLatLng L val) ;;
  init <- read initialized ;;
  if negb init then ret tt else
  latlng <- read (fun d => _latlng (prim d)) ;;
  emit (positionChange latlng) ;;
  emit (latChange (lat latlng)) ;;
  emit (lngChange (lng latlng)) ;;
  g <- get_geoJSON ;;
  emit (geoJSONChange g).

(** [set position], [get position] *)
Definition set_position (val : LatLngExpression) : Method unit := setLatLng val.

(** [get lat], [get lng], [set lat], [set lng] *)
Definition get_lat : Method number := read (fun d => lat (_latlng (prim d))).
Definition get_lng : Method number := read (fun d => lng (_latlng (prim d))).

Definition set_lat (val : number) : Method unit :=
  this_lng <- get_lng ;;
  setLatLng (Tuple val this_lng).

Definition set_lng (val : number) : Method unit :=
  this_lat <- get_lat ;;
  setLatLng (Tuple this_lat val).

Definition setRadius (val : number) : Method unit :=
  invoke (Circle_setRadius L val) ;;
  emit (radiusChange val).

Definition set_radius (val : number) : Method unit := setRadius val.
Definition get_radius : Method number := read (fun d => getRadius L (prim d)).

(** [set geoJSON] *)
Definition set_geoJSON (val : Feature) : Method unit :=
  assign_properties (properties val) ;;
  let geomType := gtype (geometry val) in
  if negb (String.eqb geomType "Point")
  then throw (Error (String.append "Unsupported geometry type: " geomType))
  else setLatLng (lng2lat L (coordinates (geometry val))).

Definition setStyle (style : PathOptions) : Method unit :=
  invoke (Path_setStyle L style) ;;
  when (hasOwnProperty style "stroke") (emit (strokeChange (prop style "stroke"))) ;;
  when (hasOwnProperty style "color") (emit (colorChange (prop style "color"))) ;;
  when (hasOwnProperty style "weight") (emit (weightChange (prop style "weight"))) ;;
  when (hasOwnProperty style "opacity") (emit (opacityChange (prop style "opacity"))) ;;
  when (hasOwnProperty style "lineCap") (emit (lineCapChange (prop style "lineCap"))) ;;
  when (hasOwnProperty style "lineJoin") (emit (lineJoinChange (prop style "lineJoin"))) ;;
  when (hasOwnProperty style "dashArray") (emit (dashArrayChange (prop style "dashArray"))) ;;
  when (hasOwnProperty style "dashOffset") (emit (dashOffsetChange (prop style "dashOffset"))) ;;
  when (hasOwnProperty style "fill") (emit (fillChange (prop style "fill"))) ;;
  when (hasOwnProperty style "fillColor") (emit (fillColorChange (prop style "fillColor"))) ;;
  when (hasOwnProperty style "fillOpacity") (emit (fillOpacityChange (prop style "fillOpacity"))) ;;
  when (hasOwnProperty style "fillRule") (emit (fillRuleChange (prop style "fillRule"))) ;;
  when (hasOwnProperty style "className") (emit (classNameChange (prop style "className"))) ;;
  emit (styleChange style).

(** The thirteen setters [set opacity(val) { this.setStyle({opacity: val}) }]
    and getters [get opacity() { return this.options.opacity }], by key. *)
Definition set_option (k : string) (val : Value) : Method unit := setStyle {[ k := val ]}.
Definition get_option (k : string) : Method Value := read (fun d => prop (options (prim d)) k).

(** [set style], [get style] *)
Definition set_style (val : PathOptions) : Method unit := setStyle val.
Definition get_style : Method PathOptions := read (fun d => options (prim d)).

(** [get display] *)
Definition get_display : Method bool :=
  probe <- read (fun d => getElement L (prim d)) ;;
  match probe with
  | None => ret false
  | Some container =>
      el <- read (fun d => dom (prim d) container) ;;
      ret (negb (String.eqb (style_display el) "none")
           && bool_decide (is_Some (parentElement el)))
  end.

(** [container.style.display = s] *)
Definition assign_style_display (container : ElementRef) (s : string) : Method unit :=
  write (with_prim (with_dom (fun m =>
    <[ container := {| style_display := s;
                       parentElement := parentElement (m container) |} ]> m))).

(** [set display] *)
Definition set_display (val : bool) : Method unit :=
  isDisplayed <- get_display ;;
  if Bool.eqb isDisplayed val then ret tt else
  probe <- read (fun d => getElement L (prim d)) ;;
  match probe with
  | None => ret tt
  | Some container =>
      emit (displayChange val) ;;
      assign_style_display container (if val then "" else "none")
  end.

(** [set interactive], [get interactive] *)
Definition set_interactive (val : bool) : Method unit :=
  map <- read (fun d => _map (prim d)) ;;
  write (with_prim (with_options (insert "interactive" (VBool val)))) ;;
  invoke (onRemove L map) ;;
  invoke (onAdd L map).

Definition get_interactive : Method Value :=
  read (fun d => prop (options (prim d)) "interactive").

(** [set properties], [get properties] *)
Definition set_properties (val : Value) : Method unit :=
  assign_properties val ;;
  g <- get_geoJSON ;;
  emit (geoJSONChange g).

Definition get_properties : Method Value :=
  fun d =>
    match feature (prim d) with
    | Some f => Normal (properties f) d
    | None => Abrupt (TypeError "Cannot read property 'properties' of undefined") d
    end.

End Directive.

Arguments constructor L mapComponent : assert.

(** ** A reference instance of the interface

    Leaflet 1.0.3 as its reference describes the methods above: [setLatLng]
    stores [L.latLng(val)]; [setStyle] merges the given options into
    [this.options]; [toGeoJSON] exports a Point feature with coordinates
    [[lng, lat]] and the properties of [this.feature]; [addLayer] and
    [removeFrom] call the hooks [onAdd] and [onRemove] and then fire [add]
    and [remove]; the hooks themselves put the path element into the
    renderer's container and take it out, and fire nothing.  [lng2lat] swaps
    the two coordinates of a GeoJSON position. *)
Module Reference.

Definition pane : ElementRef := 0.
Definition path : ElementRef := 1.

Definition detached : HTMLElement := {| style_display := ""; parentElement := None |}.
Definition attached : HTMLElement := {| style_display := ""; parentElement := Some pane |}.

Definition new (val : LatLngExpression) : Primitive :=
  {| _latlng := toLatLng val; options := ∅; feature := None; _map := None;
     _mRadius := 10%float; _path := None; dom := fun _ => detached |}.

Definition store_latlng (val : LatLngExpression) (p : Primitive) : Primitive :=
  {| _latlng := toLatLng val; options := options p; feature := feature p;
     _map := _map p; _mRadius := _mRadius p; _path := _path p; dom := dom p |}.

Definition store_radius (val : number) (p : Primitive) : Primitive :=
  {| _latlng := _latlng p; options := options p; feature := feature p;
     _map := _map p; _mRadius := val; _path := _path p; dom := dom p |}.

Definition store_map (m : option MapComponent) (p : Primitive) : Primitive :=
  {| _latlng := _latlng p; options := options p; feature := feature p;
     _map := m; _mRadius := _mRadius p; _path := _path p; dom := dom p |}.

Definition export (p : Primitive) : Feature :=
  {| properties := match feature p with Some f => properties f | None => VObj [] end;
     geometry := {| gtype := "Point";
                    coordinates := [lng (_latlng p); lat (_latlng p)] |} |}.

Definition draw (p : Primitive) : Primitive :=
  {| _latlng := _latlng p; options := options p; feature := feature p;
     _map := _map p; _mRadius := _mRadius p; _path := Some path;
     dom := <[ path := attached ]> (dom p) |}.

Definition erase (p : Primitive) : Primitive :=
  match _path p with
  | Some c =>
      with_dom (fun m => <[ c := {| style_display := style_display (m c);
                                    parentElement := None |} ]> m) p
  | None => p
  end.

Definition event (type : string) : LeafletEvent := VObj [("type", VStr type)].

Definition swap (coordinates : list number) : LatLngExpression :=
  match coordinates with
  | x :: y :: _ => Tuple y x
  | _ => Tuple nan nan
  end.

End Reference.

Definition leaflet : Leaflet :=
  {| Circle_new := Reference.new;
     Circle_setLatLng := fun val p => (Reference.store_latlng val p, []);
     Circle_setRadius := fun val p => (Reference.store_radius val p, []);
     getRadius := _mRadius;
     Path_setStyle := fun style p => (with_options (fun o => style ∪ o) p, []);
     toGeoJSON := Reference.export;
     getElement := _path;
     onRemove := fun _ p => (Reference.erase p, []);
     onAdd := fun _ p => (Reference.draw p, []);
     removeFrom := fun _ p =>
       match _map p with
       | Some _ => (Reference.store_map None (Reference.erase p),
                    [("remove", Reference.event "remove")])
       | None => (p, [])
       end;
     bindPopup := fun _ p => (p, []);
     bindTooltip := fun _ p => (p, []);
     addLayer := fun m p =>
       (Reference.store_map (Some m) (Reference.draw p), [("add", Reference.event "add")]);
     lng2lat := Reference.swap |}.

(** A directive as Angular leaves it: constructed on map [7], then
    initialised. *)
Definition circle0 : CircleDirective := constructor leaflet 7.
Definition circle1 : CircleDirective := run (ngAfterContentInit leaflet) circle0.

(** ** Vocabulary of the statements *)

(** The listeners the constructor leaves on the object, in the order of
    their registration. *)
Definition registered : list Listener :=
  [("remove", emit_display false); ("add", emit_display true);
   ("add", emit_event addEvent); ("remove", emit_event removeEvent);
   ("popupopen", emit_event popupopenEvent); ("popupclose", emit_event popupcloseEvent);
   ("tooltipopen", emit_event tooltipopenEvent);
   ("tooltipclose", emit_event tooltipcloseEvent);
   ("click", emit_event clickEvent); ("dbclick", emit_event dbclickEvent);
   ("mousedown", emit_event mousedownEvent); ("mouseover", emit_event mouseoverEvent);
   ("mouseout", emit_event mouseoutEvent); ("contextmenu", emit_event contextmenuEvent)].

(** What the listeners [ls] emit when the events [evs] are fired. *)
Definition overheard (ls : list Listener) (evs : Fired) : list Emission :=
  flat_map (heard ls) evs.

(** The keys [setStyle] looks at, each with its emitter. *)
Definition style_outputs : list (string * (Value → Emission)) :=
  [("stroke", strokeChange); ("color", colorChange); ("weight", weightChange);
   ("opacity", opacityChange); ("lineCap", lineCapChange); ("lineJoin", lineJoinChange);
   ("dashArray", dashArrayChange); ("dashOffset", dashOffsetChange);
   ("fill", fillChange); ("fillColor", fillColorChange);
   ("fillOpacity", fillOpacityChange); ("fillRule", fillRuleChange);
   ("className", classNameChange)].

(** What the body of [setStyle] emits for one key. *)
Definition notified (style : PathOptions) (ko : string * (Value → Emission)) : list Emission :=
  if hasOwnProperty style (fst ko) then [snd ko (prop style (fst ko))] else [].

Definition is_listener_output (e : Emission) : bool :=
  match e with
  | displayChange _ | emitEvent _ _ => true
  | _ => false
  end.

Definition is_styleChange (e : Emission) : bool :=
  match e with styleChange _ => true | _ => false end.

Definition is_displayChange (e : Emission) : bool :=
  match e with displayChange _ => true | _ => false end.

Definition is_position_output (e : Emission) : bool :=
  match e with
  | positionChange _ | latChange _ | lngChange _ | geoJSONChange _ => true
  | _ => false
  end.



Definition hooks_keep_options (L : Leaflet) : Prop :=
  ∀ m p, options (onRemove L m p).1 = options p ∧ options (onAdd L m p).1 = options p.

(** When a second [display = val] finds the visibility it asked for: the
    probe throws, or [val] is false, or the container has a parent. *)
Definition settles (L : Leaflet) (val : bool) (d : CircleDirective) : bool :=
  match getElement L (prim d) with
  | None => true
  | Some container =>
      negb val || bool_decide (is_Some (parentElement (dom (prim d) container)))
  end.

(** What [get display] returns. *)
Definition visible (L : Leaflet) (d : CircleDirective) : bool :=
  match getElement L (prim d) with
  | None => false
  | Some container =>
      negb (String.eqb (style_display (dom (prim d) container)) "none")
      && bool_decide (is_Some (parentElement (dom (prim d) container)))
  end.

(** [getElement] hands out the same container whatever display style has
    been written into a node. *)
Definition probe_ignores_display (L : Leaflet) : Prop :=
  ∀ p c s,
    getElement L (with_dom (fun m =>
      <[ c := {| style_display := s; parentElement := parentElement (m c) |} ]> m) p)
    = getElement L p.

(** The directive after [display = val] went through on [container]. *)
Definition toggled (val : bool) (container : ElementRef) (d : CircleDirective) :
    CircleDirective :=
  {| prim := with_dom (fun m =>
       <[ container := {| style_display := if val then "" else "none";
                          parentElement := parentElement (m container) |} ]> m)
       (prim d);
     listeners := listeners d; initialized := initialized d;
     popupDirective := popupDirective d; tooltipDirective := tooltipDirective d;
     emitted := emitted d ++ [displayChange val] |}.

(** The three steps of [set interactive]: the primitive with the option
    written, what [onRemove] makes of it, and what [onAdd] makes of that. *)
Definition flagged (val : bool) (d : CircleDirective) : Primitive :=
  with_options (insert "interactive" (VBool val)) (prim d).

Definition taken_off (L : Leaflet) (val : bool) (d : CircleDirective) : Primitive * Fired :=
  onRemove L (_map (prim d)) (flagged val d).

Definition put_back (L : Leaflet) (val : bool) (d : CircleDirective) : Primitive * Fired :=
  onAdd L (_map (prim d)) (taken_off L val d).1.

(** Concrete inputs. *)
Definition half_opaque : PathOptions := {[ "opacity" := VNum 0.5%float ]}.
Definition hidden : PathOptions := {[ "display" := VBool false ]}.
Definition red : PathOptions := {[ "color" := VStr "red" ]}.

(** [circle1] after [setStyle({color: 'red'})]. *)
Definition red_circle : CircleDirective := run (setStyle leaflet red) circle1.

(** [circle1] after [ngOnDestroy()]: the layer is off the map and its
    element out of the document. *)
Definition removed_circle : CircleDirective := run (ngOnDestroy leaflet) circle1.

Definition north : number := 48.75%float.
Definition here : LatLngExpression := Literal 48.75%float 2.5%float.

Definition line : Feature :=
  {| properties := VStr "road";
     geometry := {| gtype := "LineString"; coordinates := [2%float; 48%float] |} |}.

Definition paris : Feature :=
  {| properties := VStr "city";
     geometry := {| gtype := "Point"; coordinates := [2.5%float; 48.75%float] |} |}.

(** ** Calls

    What can happen to a constructed directive: the host assigns one of its
    inputs, calls one of its methods or runs a lifecycle hook, and the
    primitive fires an event. *)
Inductive Call :=
| c_setLatLng (val : LatLngExpression)
| c_position (val : LatLngExpression)
| c_lat (val : number)
| c_lng (val : number)
| c_setRadius (val : number)
| c_radius (val : number)
| c_geoJSON (val : Feature)
| c_setStyle (style : PathOptions)
| c_style (val : PathOptions)
| c_display (val : bool)
| c_interactive (val : bool)
| c_properties (val : Value)
| c_ngAfterContentInit
| c_ngOnDestroy
| c_fire (type : string) (e : LeafletEvent).

Definition perform (L : Leaflet) (c : Call) : Method unit :=
  match c with
  | c_setLatLng val => setLatLng L val
  | c_position val => set_position L val
  | c_lat val => set_lat L val
  | c_lng val => set_lng L val
  | c_setRadius val => setRadius L val
  | c_radius val => set_radius L val
  | c_geoJSON val => set_geoJSON L val
  | c_setStyle style => setStyle L style
  | c_style val => set_style L val
  | c_display val => set_display L val
  | c_interactive val => set_interactive L val
  | c_properties val => set_properties L val
  | c_ngAfterContentInit => ngAfterContentInit L
  | c_ngOnDestroy => ngOnDestroy L
  | c_fire type e => fire type e
  end.

(** The directive after a sequence of calls; a call that throws leaves the
    state it threw in, and the next call starts from there. *)
Definition after (L : Leaflet) (cs : list Call) (d : CircleDirective) : CircleDirective :=
  fold_left (fun d c => run (perform L c) d) cs d.

Definition sets_flag (c : Call) : bool :=
  match c with c_ngAfterContentInit => true | _ => false end.

(** The two listeners that are on the object when the constructor calls
    [mapComponent.addLayer(this)]. *)
Definition early_listeners : list Listener :=
  [("remove", emit_display false); ("add", emit_display true)].

(** The primitive the constructor hands to [addLayer]: [super([0, 0])] with
    its feature and the properties of the feature defaulted. *)
Definition featured (L : Leaflet) : Primitive :=
  with_feature
    ((fun f => {| properties := or_else (properties f) (VObj []);
                  geometry := geometry f |})
     <$> Some (default empty_feature (feature (Circle_new L (Tuple 0%float 0%float)))))
    (with_feature
       (Some (default empty_feature (feature (Circle_new L (Tuple 0%float 0%float)))))
       (Circle_new L (Tuple 0%float 0%float))).

(** The ten event types with one listener each, and the output each
    listener emits on. *)
Definition event_outputs : list (string * EventOutput) :=
  [("popupopen", popupopenEvent); ("popupclose", popupcloseEvent);
   ("tooltipopen", tooltipopenEvent); ("tooltipclose", tooltipcloseEvent);
   ("click", clickEvent); ("dbclick", dbclickEvent);
   ("mousedown", mousedownEvent); ("mouseover", mouseoverEvent);
   ("mouseout", mouseoutEvent); ("contextmenu", contextmenuEvent)].

(** The two steps of [ngAfterContentInit] on the primitive. *)
Definition popup_bound (L : Leaflet) (d : CircleDirective) : Primitive * Fired :=
  match popupDirective d with
  | Some p => bindPopup L p (prim d)
  | None => (prim d, [])
  end.

Definition tooltip_bound (L : Leaflet) (d : CircleDirective) : Primitive * Fired :=
  match tooltipDirective d with
  | Some t => bindTooltip L t (popup_bound L d).1
  | None => ((popup_bound L d).1, [])
  end.

(** [this.feature] with its properties replaced. *)
Definition reproperty (val : Value) (f : Feature) (p : Primitive) : Primitive :=
  with_feature (Some {| properties := val; geometry := geometry f |}) p.

(** Further expectations on the interface: [setRadius] stores the radius
    that [getRadius] returns; [setStyle] merges the bag into
    [this.options], the bag winning; [setLatLng] leaves [this.feature]
    alone; [toGeoJSON] exports the properties of [this.feature]; [lng2lat]
    swaps the two numbers of a GeoJSON position. *)
Definition stores_radius (L : Leaflet) : Prop :=
  ∀ val p, getRadius L (Circle_setRadius L val p).1 = val.

Definition merges_style (L : Leaflet) : Prop :=
  ∀ (style : PathOptions) p, options (Path_setStyle L style p).1 = style ∪ options p.




(** Whether the constructor registered a listener for the event type. *)
Definition subscribed (type : string) : bool :=
  existsb (String.eqb type) (map fst registered).

Definition is_radiusChange (e : Emission) : bool :=
  match e with radiusChange _ => true | _ => false end.

Definition is_geoJSONChange (e : Emission) : bool :=
  match e with geoJSONChange _ => true | _ => false end.


(** More concrete inputs. *)
Definition wide : number := 500%float.
Definition greeting : Value := VStr "hello".

Definition busy_day : list Call :=
  [c_lat north; c_ngAfterContentInit; c_geoJSON line;
   c_fire "click" (VStr "e"); c_display false; c_ngOnDestroy].

(** ** When a call into Leaflet does not return

    No [try] surrounds the inherited calls, so an error thrown inside one
    of them leaves the method at that point.  The interface above says what
    a call does when it returns; [Hazards] says when it does not: for each
    of [super.setLatLng], [super.setRadius], [this.onRemove] and
    [this.onAdd], the error thrown, if any, with the primitive as the call
    left it and the events it had fired; when [this.getElement()] returns
    [undefined] (it neither throws nor hands out an element); and what
    Leaflet's own listeners on the object (those that [bindPopup] and
    [bindTooltip] register) do when an event is fired: the primitive they
    leave and the events they fire in turn. *)
Definition Thrown := (JsError * (Primitive * Fired))%type.

Record Hazards := {
  setLatLng_throws : LatLngExpression → Primitive → option Thrown;
  setRadius_throws : number → Primitive → option Thrown;
  onRemove_throws : option MapComponent → Primitive → option Thrown;
  onAdd_throws : option MapComponent → Primitive → option Thrown;
  getElement_undefined : Primitive → bool;
  responds : string → LeafletEvent → Primitive → Primitive * Fired
}.

(** A call into Leaflet that may throw: when it does, the primitive is as
    the call left it, the events it had fired have reached the listeners,
    and the error goes up. *)
Definition attempt (call : Primitive → Primitive * Fired)
    (thrown : Primitive → option Thrown) : Method unit :=
  fun d =>
    match thrown (prim d) with
    | None => invoke call d
    | Some (e, so_far) => (invoke (fun _ => so_far) ;; throw e) d
    end.

(** The three outcomes of [this.getElement()]. *)
Inductive Probe :=
| probe_throws
| probe_undefined
| probe_element (container : ElementRef).

(** The methods that contain such calls, as the class has them. *)
Module Raising.
Section Directive.

Variable L : Leaflet.
Variable H : Hazards.

Definition setLatLng (val : LatLngExpression) : Method unit :=
  attempt (Circle_setLatLng L val) (setLatLng_throws H val) ;;
  init <- read initialized ;;
  if negb init then ret tt else
  latlng <- read (fun d => _latlng (prim d)) ;;
  emit (positionChange latlng) ;;
  emit (latChange (lat latlng)) ;;
  emit (lngChange (lng latlng)) ;;
  g <- get_geoJSON L ;;
  emit (geoJSONChange g).

Definition setRadius (val : number) : Method unit :=
  attempt (Circle_setRadius L val) (setRadius_throws H val) ;;
  emit (radiusChange val).

(** [set radius] *)
Definition set_radius (val : number) : Method unit := setRadius val.

(** [set geoJSON] *)
Definition set_geoJSON (val : Feature) : Method unit :=
  assign_properties (properties val) ;;
  let geomType := gtype (geometry val) in
  if negb (String.eqb geomType "Point")
  then throw (Error (String.append "Unsupported geometry type: " geomType))
  else setLatLng (lng2lat L (coordinates (geometry val))).

Definition probe (p : Primitive) : Probe :=
  if getElement_undefined H p then probe_undefined
  else match getElement L p with
       | Some container => probe_element container
       | None => probe_throws
       end.

(** [get display]: [container.style] is read after the [try]. *)
Definition get_display : Method bool :=
  outcome <- read (fun d => probe (prim d)) ;;
  match outcome with
  | probe_throws => ret false
  | probe_undefined => throw (TypeError "Cannot read property 'style' of undefined")
  | probe_element container =>
      el <- read (fun d => dom (prim d) container) ;;
      ret (negb (String.eqb (style_display el) "none")
           && bool_decide (is_Some (parentElement el)))
  end.

(** [set display] *)
Definition set_display (val : bool) : Method unit :=
  isDisplayed <- get_display ;;
  if Bool.eqb isDisplayed val then ret tt else
  outcome <- read (fun d => probe (prim d)) ;;
  match outcome with
  | probe_throws => ret tt
  | probe_undefined =>
      emit (displayChange val) ;;
      throw (TypeError "Cannot read property 'style' of undefined")
  | probe_element container =>
      emit (displayChange val) ;;
      assign_style_display container (if val then "" else "none")
  end.

(** [set interactive] *)
Definition set_interactive (val : bool) : Method unit :=
  map <- read (fun d => _map (prim d)) ;;
  write (with_prim (with_options (insert "interactive" (VBool val)))) ;;
  attempt (onRemove L map) (onRemove_throws H map) ;;
  attempt (onAdd L map) (onAdd_throws H map).

(** An event fired on the object: the listeners of the class run, in the
    order of their registration, then Leaflet's own, which were registered
    later. *)
Definition receive (type : string) (e : LeafletEvent) : Method unit :=
  fire type e ;;
  invoke (responds H type e).

End Directive.
End Raising.

(** The hazards of the reference instance: [L.latLng] rejects NaN in a
    tuple or a literal before anything is stored, a NaN
    radius is stored and then rejected when a circle on a map is redrawn,
    the hooks need the map, a circle that was never drawn has no element,
    and without popup or tooltip Leaflet has no listener of its own on the
    object. *)
Definition invalid (l : LatLng) : bool :=
  PrimFloat.is_nan (lat l) || PrimFloat.is_nan (lng l).

Definition hazards : Hazards :=
  {| setLatLng_throws := fun val p =>
       match val with
       | Native _ => None
       | Tuple _ _ | Literal _ _ =>
           if invalid (toLatLng val)
           then Some (Error "Invalid LatLng object", (p, []))
           else None
       end;
     setRadius_throws := fun val p =>
       match _map p with
       | Some _ =>
           if PrimFloat.is_nan val
           then Some (Error "Invalid LatLng object", (Reference.store_radius val p, []))
           else None
       | None => None
       end;
     onRemove_throws := fun map p =>
       match map with
       | Some _ => None
       | None => Some (TypeError "Cannot read property '_targets' of null", (p, []))
       end;
     onAdd_throws := fun map p =>
       match map with
       | Some _ => None
       | None => Some (TypeError "Cannot read property 'getRenderer' of null", (p, []))
       end;
     getElement_undefined := fun p =>
       match _path p with Some _ => false | None => true end;
     responds := fun _ _ p => (p, []) |}.

(** The same with a popup bound: a click opens it, which fires
    [popupopen]. *)
Definition popup_hazards : Hazards :=
  {| setLatLng_throws := setLatLng_throws hazards;
     setRadius_throws := setRadius_throws hazards;
     onRemove_throws := onRemove_throws hazards;
     onAdd_throws := onAdd_throws hazards;
     getElement_undefined := getElement_undefined hazards;
     responds := fun type _ p =>
       if String.eqb type "click"
       then (p, [("popupopen", Reference.event "popupopen")])
       else (p, []) |}.

(** What the statements about these methods say. *)



(** The directive a call into Leaflet leaves when it throws. *)
Definition left_by (so_far : Primitive * Fired) (d : CircleDirective) : CircleDirective :=
  {| prim := so_far.1; listeners := listeners d; initialized := initialized d;
     popupDirective := popupDirective d; tooltipDirective := tooltipDirective d;
     emitted := emitted d ++ overheard (listeners d) so_far.2 |}.

(** Inputs on which a call does not return. *)
Definition nowhere : LatLngExpression := Tuple nan 0%float.

Definition lost : Feature :=
  {| properties := VStr "city";
     geometry := {| gtype := "Point"; coordinates := [nan; 0%float] |} |}.

(** ** Basic facts about methods *)

Lemma fire_all_spec evs d :
  fire_all evs d
  = Normal tt (with_emitted (fun l => l ++ overheard (listeners d) evs) d).
Proof.
  revert d. induction evs as [|[type e] evs IH]; intros d; simpl.
  - destruct d; unfold ret, with_emitted; simpl. by rewrite app_nil_r.
  - unfold bind, fire. rewrite IH. destruct d; unfold with_emitted; simpl.
    by rewrite <- app_assoc.
Qed.

Lemma invoke_spec fn d :
  invoke fn d
  = Normal tt
      {| prim := (fn (prim d)).1; listeners := listeners d;
         initialized := initialized d; popupDirective := popupDirective d;
         tooltipDirective := tooltipDirective d;
         emitted := emitted d ++ overheard (listeners d) (fn (prim d)).2 |}.
Proof.
  unfold invoke. destruct (fn (prim d)) as [p evs]. by rewrite fire_all_spec.
Qed.

Lemma overheard_listener_output ls evs :
  Forall (fun e => is_listener_output e = true) (overheard ls evs).
Proof.
  unfold overheard. induction evs as [|ev evs IH]; simpl; [constructor|].
  apply Forall_app; split; [|exact IH].
  unfold heard. apply Forall_forall. intros e He.
  apply in_map_iff in He as [[t fn] [<- _]]. by destruct fn.
Qed.

Lemma emissions_app {A} (m : Method A) d l :
  emitted (run m d) = emitted d ++ l → emissions m d = l.
Proof. unfold emissions. intros ->. by rewrite drop_app_length. Qed.

Lemma when_emit_then {A} c e (k : Method A) d :
  (when c (emit e) ;; k) d
  = k (with_emitted (fun l => l ++ (if c then [e] else [])) d).
Proof.
  unfold bind, when. destruct c; [reflexivity|].
  unfold ret. destruct d; unfold with_emitted; simpl. by rewrite app_nil_r.
Qed.

Lemma bind_write {A} f (k : Method A) d : (write f ;; k) d = k (f d).
Proof. reflexivity. Qed.

Lemma bind_read {A B} (f : CircleDirective → A) (k : A → Method B) d :
  (x <- read f ;; k x) d = k (f d) d.
Proof. reflexivity. Qed.

Lemma bind_ret {A B} (a : A) (k : A → Method B) d : (x <- ret a ;; k x) d = k a d.
Proof. reflexivity. Qed.

Lemma bind_invoke {A} fn (k : Method A) d :
  (invoke fn ;; k) d
  = k {| prim := (fn (prim d)).1; listeners := listeners d;
         initialized := initialized d; popupDirective := popupDirective d;
         tooltipDirective := tooltipDirective d;
         emitted := emitted d ++ overheard (listeners d) (fn (prim d)).2 |}.
Proof. unfold bind. by rewrite invoke_spec. Qed.

(** ** [setStyle] *)

Lemma with_emitted_literal f p ls i pd td l :
  with_emitted f
    {| prim := p; listeners := ls; initialized := i; popupDirective := pd;
       tooltipDirective := td; emitted := l |}
  = {| prim := p; listeners := ls; initialized := i; popupDirective := pd;
       tooltipDirective := td; emitted := f l |}.
Proof. reflexivity. Qed.

Lemma setStyle_spec L style d :
  setStyle L style d
  = Normal tt
      {| prim := (Path_setStyle L style (prim d)).1; listeners := listeners d;
         initialized := initialized d; popupDirective := popupDirective d;
         tooltipDirective := tooltipDirective d;
         emitted := emitted d
                    ++ overheard (listeners d) (Path_setStyle L style (prim d)).2
                    ++ flat_map (notified style) style_outputs
                    ++ [styleChange style] |}.
Proof.
  unfold setStyle. unfold bind at 1. rewrite invoke_spec.
  rewrite !when_emit_then. unfold emit, write.
  rewrite !with_emitted_literal.
  unfold style_outputs, notified. cbn [flat_map fst snd].
  rewrite app_nil_r, <- !app_assoc.
  reflexivity.
Qed.

Lemma setStyle_emissions L style d :
  emissions (setStyle L style) d
  = overheard (listeners d) (Path_setStyle L style (prim d)).2
    ++ flat_map (notified style) style_outputs
    ++ [styleChange style].
Proof. apply emissions_app. unfold run. by rewrite setStyle_spec. Qed.

Lemma hasOwnProperty_true (style : PathOptions) k :
  hasOwnProperty style k = true ↔ is_Some (style !! k).
Proof. unfold hasOwnProperty. apply bool_decide_eq_true. Qed.

Lemma In_notified (style : PathOptions) k out e :
  In e (notified style (k, out)) ↔ ∃ v, style !! k = Some v ∧ e = out v.
Proof.
  unfold notified; cbn [fst snd]. destruct (style !! k) as [v|] eqn:E.
  - assert (H : hasOwnProperty style k = true) by (apply hasOwnProperty_true; eauto).
    rewrite H. unfold prop. rewrite E. simpl. split.
    + intros [<-|[]]. eauto.
    + intros [v0 [[= <-] ->]]. by left.
  - assert (H : hasOwnProperty style k = false).
    { apply not_true_is_false. rewrite hasOwnProperty_true, E. by intros [? ?]. }
    rewrite H. simpl. split; [intros []|intros [v0 [[=] _]]].
Qed.

Lemma not_overheard ls evs e :
  is_listener_output e = false → ¬ In e (overheard ls evs).
Proof.
  intros He Hin. pose proof (overheard_listener_output ls evs) as H.
  rewrite Forall_forall in H. apply H in Hin. congruence.
Qed.

Ltac solve_key :=
  split;
  [ intros H;
    repeat (destruct H as [[? [H1 H2]]|H];
            [try discriminate H2; injection H2 as ->; exact H1|]);
    destruct H
  | intros H;
    repeat first [left; eexists; split; [exact H|reflexivity] | right] ].

Lemma In_style_outputs (style : PathOptions) k out v :
  In (k, out) style_outputs →
  In (out v) (flat_map (notified style) style_outputs) ↔ style !! k = Some v.
Proof.
  intros Hk. unfold style_outputs. cbn [flat_map].
  rewrite !in_app_iff, !In_notified. simpl in Hk.
  repeat (destruct Hk as [[= <- <-]|Hk]; [solve_key|]). destruct Hk.
Qed.

Lemma setStyle_own_displayChange L (style : PathOptions) d v :
  In (displayChange v) (emissions (setStyle L style) d) →
  In (displayChange v) (overheard (listeners d) (Path_setStyle L style (prim d)).2).
Proof.
  rewrite setStyle_emissions, !in_app_iff. intros [H|[H|[H|[]]]]; [exact H| |discriminate H].
  apply in_flat_map in H as [[k out] [Hk H]].
  apply In_notified in H as [v0 [_ H]]. simpl in Hk.
  repeat (destruct Hk as [[= <- <-]|Hk]; [discriminate H|]). destruct Hk.
Qed.

(** C1 (as amended).  For every bag passed to [setStyle], every state of the
    directive and each of the thirteen keys the method looks at (stroke,
    color, weight, opacity, lineCap, lineJoin, dashArray, dashOffset, fill,
    fillColor, fillOpacity, fillRule, className): the emitter of the key
    emits during the call if and only if the key is an own property of the
    bag, and what it emits is the value the bag holds, whatever the value
    held before.  [display] is not among these keys: a [displayChange]
    emitted during the call can only come from a listener for an event that
    the inherited [setStyle] fired. *)
Theorem setStyle_notifies_present_keys L (style : PathOptions) d k out :
  In (k, out) style_outputs →
  (∀ v, In (out v) (emissions (setStyle L style) d) ↔ style !! k = Some v)
  ∧ ((∃ v, In (out v) (emissions (setStyle L style) d))
     ↔ hasOwnProperty style k = true)
  ∧ (∀ v, In (displayChange v) (emissions (setStyle L style) d) →
          In (displayChange v)
            (overheard (listeners d) (Path_setStyle L style (prim d)).2)).
Proof.
  intros Hk. cut ((∀ v, In (out v) (emissions (setStyle L style) d) ↔ style !! k = Some v)
              ∧ ((∃ v, In (out v) (emissions (setStyle L style) d))
                 ↔ hasOwnProperty style k = true)).
  { intros [H1 H2]. split; [exact H1|]. split; [exact H2|].
    intros v. apply setStyle_own_displayChange. }
  assert (Hv : ∀ v, In (out v) (emissions (setStyle L style) d) ↔ style !! k = Some v).
  { intros v. rewrite setStyle_emissions, !in_app_iff, (In_style_outputs style k out v Hk).
    split; [|tauto]. intros [H|[H|[H|[]]]]; [|exact H|].
    - exfalso. revert H. apply not_overheard.
      simpl in Hk. repeat (destruct Hk as [[= <- <-]|Hk]; [reflexivity|]). destruct Hk.
    - exfalso. simpl in Hk.
      repeat (destruct Hk as [[= <- <-]|Hk]; [discriminate H|]). destruct Hk. }
  split; [exact Hv|]. rewrite hasOwnProperty_true. unfold is_Some.
  split; intros [v H]; exists v; by apply Hv.
Qed.

(** The statement above at [setStyle({opacity: 0.5})] on an initialised
    circle, for the key [opacity]. *)
Lemma setStyle_notifies_present_keys_witness :
  In ("opacity", opacityChange) style_outputs
  ∧ (∀ v, In (opacityChange v) (emissions (setStyle leaflet half_opaque) circle1)
          ↔ half_opaque !! "opacity" = Some v)
  ∧ ((∃ v, In (opacityChange v) (emissions (setStyle leaflet half_opaque) circle1))
     ↔ hasOwnProperty half_opaque "opacity" = true)
  ∧ (∀ v, In (displayChange v) (emissions (setStyle leaflet half_opaque) circle1) →
          In (displayChange v)
            (overheard (listeners circle1)
               (Path_setStyle leaflet half_opaque (prim circle1)).2)).
Proof.
  split.
  - do 3 right. left. reflexivity.
  - apply (setStyle_notifies_present_keys leaflet half_opaque circle1
             "opacity" opacityChange).
    do 3 right. left. reflexivity.
Defined.

(** C1, as stated, fails for the first of its fourteen keys:
    [setStyle({display: false})] on an initialised circle emits
    [styleChange] and nothing else, so no display-changed notification
    although [display] is an own property of the bag. *)
Lemma setStyle_ignores_display_key :
  hasOwnProperty hidden "display" = true
  ∧ emissions (setStyle leaflet hidden) circle1 = [styleChange hidden]
  ∧ ∀ v, ¬ In (displayChange v) (emissions (setStyle leaflet hidden) circle1).
Proof.
  assert (H : emissions (setStyle leaflet hidden) circle1 = [styleChange hidden]).
  { vm_compute. reflexivity. }
  split; [reflexivity|]. split; [exact H|].
  intros v. rewrite H. intros [Hv|[]]. discriminate Hv.
Qed.

(** C2 (as amended).  For every bag and every state, [setStyle] emits
    [styleChange] exactly once, as the last emission of the call, after the
    notifications of the keys, and its payload is the bag that was passed
    in. *)
Theorem setStyle_emits_styleChange_last L (style : PathOptions) d :
  ∃ before,
    emissions (setStyle L style) d = before ++ [styleChange style]
    ∧ Forall (fun e => is_styleChange e = false) before
    ∧ ∃ heard_first, before = heard_first ++ flat_map (notified style) style_outputs.
Proof.
  rewrite setStyle_emissions.
  exists (overheard (listeners d) (Path_setStyle L style (prim d)).2
          ++ flat_map (notified style) style_outputs).
  split; [by rewrite <- app_assoc|]. split; [|by eexists].
  apply Forall_app. split.
  - apply Forall_forall. intros e He.
    pose proof (overheard_listener_output (listeners d)
                  (Path_setStyle L style (prim d)).2) as H.
    rewrite Forall_forall in H. apply H in He. by destruct e.
  - apply Forall_forall. intros e He. apply in_flat_map in He as [[k out] [Hk He]].
    apply In_notified in He as [v [_ ->]]. simpl in Hk.
    repeat (destruct Hk as [[= <- <-]|Hk]; [reflexivity|]). destruct Hk.
Qed.

(** C2, as stated, fails on the payload: on a circle whose style already
    holds [color], [setStyle({opacity: 0.5})] emits [styleChange] with the
    bag [{opacity: 0.5}], while the style of the primitive after the call
    holds both keys. *)
Lemma setStyle_payload_is_not_merged_style :
  options (prim (run (setStyle leaflet half_opaque) red_circle)) !! "color"
  = Some (VStr "red")
  ∧ ¬ In (styleChange (options (prim (run (setStyle leaflet half_opaque) red_circle))))
        (emissions (setStyle leaflet half_opaque) red_circle).
Proof.
  split; [vm_compute; reflexivity|].
  assert (H : emissions (setStyle leaflet half_opaque) red_circle
              = [opacityChange (VNum 0.5%float); styleChange half_opaque]).
  { vm_compute. reflexivity. }
  rewrite H. intros [Hv|[Hv|[]]]; [discriminate Hv|].
  apply (f_equal (fun e => match e with
                           | styleChange m => m !! "color"
                           | _ => None
                           end)) in Hv.
  vm_compute in Hv. discriminate Hv.
Qed.

(** ** [setLatLng] and the position setters *)

Lemma setLatLng_spec L val d :
  setLatLng L val d
  = Normal tt
      {| prim := (Circle_setLatLng L val (prim d)).1; listeners := listeners d;
         initialized := initialized d; popupDirective := popupDirective d;
         tooltipDirective := tooltipDirective d;
         emitted :=
           emitted d
           ++ overheard (listeners d) (Circle_setLatLng L val (prim d)).2
           ++ (if initialized d
               then [positionChange (_latlng (Circle_setLatLng L val (prim d)).1);
                     latChange (lat (_latlng (Circle_setLatLng L val (prim d)).1));
                     lngChange (lng (_latlng (Circle_setLatLng L val (prim d)).1));
                     geoJSONChange (toGeoJSON L (Circle_setLatLng L val (prim d)).1)]
               else []) |}.
Proof.
  unfold setLatLng. unfold bind at 1. rewrite invoke_spec.
  unfold bind at 1. unfold read at 1. cbn [initialized].
  destruct (initialized d); cbn [negb].
  - unfold bind, read, get_geoJSON, emit, write, with_emitted; simpl.
    by rewrite <- !app_assoc.
  - unfold ret. by rewrite app_nil_r.
Qed.

Lemma setLatLng_emissions L val d :
  emissions (setLatLng L val) d
  = overheard (listeners d) (Circle_setLatLng L val (prim d)).2
    ++ (if initialized d
        then [positionChange (_latlng (Circle_setLatLng L val (prim d)).1);
              latChange (lat (_latlng (Circle_setLatLng L val (prim d)).1));
              lngChange (lng (_latlng (Circle_setLatLng L val (prim d)).1));
              geoJSONChange (toGeoJSON L (Circle_setLatLng L val (prim d)).1)]
        else []).
Proof. apply emissions_app. unfold run. by rewrite setLatLng_spec. Qed.

Lemma filter_position_overheard ls evs :
  List.filter is_position_output (overheard ls evs) = [].
Proof.
  pose proof (overheard_listener_output ls evs) as H.
  induction H as [|e l He _ IH]; [reflexivity|].
  simpl. rewrite IH. by destruct e.
Qed.

Lemma ngAfterContentInit_initialized L d :
  ∃ d', ngAfterContentInit L d = Normal tt d' ∧ initialized d' = true
        ∧ listeners d' = listeners d.
Proof.
  unfold ngAfterContentInit. rewrite bind_write, bind_read.
  cbn [popupDirective with_initialized].
  destruct (popupDirective d) as [p|]; cbv beta iota.
  - rewrite bind_invoke, bind_read. cbn [tooltipDirective with_initialized].
    destruct (tooltipDirective d) as [t|]; cbv beta iota;
      [rewrite invoke_spec|unfold ret];
      eexists; (split; [reflexivity|]); split; reflexivity.
  - rewrite bind_ret, bind_read. cbn [tooltipDirective with_initialized].
    destruct (tooltipDirective d) as [t|]; cbv beta iota;
      [rewrite invoke_spec|unfold ret];
      eexists; (split; [reflexivity|]); split; reflexivity.
Qed.

Lemma with_prim_literal f p ls i pd td l :
  with_prim f
    {| prim := p; listeners := ls; initialized := i; popupDirective := pd;
       tooltipDirective := td; emitted := l |}
  = {| prim := f p; listeners := ls; initialized := i; popupDirective := pd;
       tooltipDirective := td; emitted := l |}.
Proof. reflexivity. Qed.

Lemma with_listeners_literal f p ls i pd td l :
  with_listeners f
    {| prim := p; listeners := ls; initialized := i; popupDirective := pd;
       tooltipDirective := td; emitted := l |}
  = {| prim := p; listeners := f ls; initialized := i; popupDirective := pd;
       tooltipDirective := td; emitted := l |}.
Proof. reflexivity. Qed.

Ltac literal :=
  rewrite ?with_prim_literal, ?with_listeners_literal, ?with_emitted_literal;
  cbn [prim listeners initialized popupDirective tooltipDirective emitted].

(** ** The constructor *)

Lemma constructor_spec L mapComponent :
  listeners (constructor L mapComponent) = registered
  ∧ initialized (constructor L mapComponent) = false.
Proof.
  unfold constructor, run, constructor_body, allocated, on.
  repeat (first [rewrite bind_write | rewrite bind_invoke]; literal).
  unfold write. literal. cbn [state_of]. literal.
  split; reflexivity.
Qed.

(** ** The GeoJSON setter *)

Lemma set_geoJSON_spec L val d f :
  feature (prim d) = Some f →
  set_geoJSON L val d
  = if String.eqb (gtype (geometry val)) "Point"
    then setLatLng L (lng2lat L (coordinates (geometry val)))
           (with_prim (with_feature
              (Some {| properties := properties val; geometry := geometry f |})) d)
    else Abrupt (Error (String.append "Unsupported geometry type: "
                          (gtype (geometry val))))
           (with_prim (with_feature
              (Some {| properties := properties val; geometry := geometry f |})) d).
Proof.
  intros Hf. unfold set_geoJSON, bind, assign_properties. rewrite Hf.
  by destruct (String.eqb (gtype (geometry val)) "Point").
Qed.

(** C9.  The GeoJSON setter is not atomic: on a directive whose feature
    exists, for every feature whose geometry type is not ['Point'], the
    state in which the error is thrown already holds the properties of the
    rejected feature, and [get properties] returns them. *)
Theorem set_geoJSON_failure_keeps_new_properties L val d f :
  feature (prim d) = Some f →
  gtype (geometry val) ≠ "Point" →
  ∃ e d', set_geoJSON L val d = Abrupt e d'
          ∧ get_properties d' = Normal (properties val) d'.
Proof.
  intros Hf Ht. rewrite (set_geoJSON_spec L val d f Hf).
  apply String.eqb_neq in Ht. rewrite Ht. eauto.
Qed.

(** The statement above at a LineString feature: the properties were the
    empty object before the call and are the feature's after the throw. *)
Lemma set_geoJSON_failure_keeps_new_properties_witness :
  feature (prim circle1) = Some empty_feature
  ∧ gtype (geometry line) ≠ "Point"
  ∧ get_properties circle1 = Normal (VObj []) circle1
  ∧ ∃ e d', set_geoJSON leaflet line circle1 = Abrupt e d'
            ∧ get_properties d' = Normal (VStr "road") d'.
Proof.
  split; [reflexivity|]. split; [discriminate|]. split; [reflexivity|].
  apply (set_geoJSON_failure_keeps_new_properties leaflet line circle1 empty_feature).
  - reflexivity.
  - discriminate.
Defined.

(** ** The display property *)

Lemma get_display_spec L d : get_display L d = Normal (visible L d) d.
Proof.
  unfold get_display, visible. rewrite bind_read.
  by destruct (getElement L (prim d)).
Qed.

Lemma set_display_spec L val d :
  set_display L val d
  = Normal tt
      (if Bool.eqb (visible L d) val then d
       else match getElement L (prim d) with
            | None => d
            | Some container => toggled val container d
            end).
Proof.
  unfold set_display. unfold bind at 1. rewrite get_display_spec.
  destruct (Bool.eqb (visible L d) val); [reflexivity|].
  rewrite bind_read. by destruct (getElement L (prim d)).
Qed.

(** After an assignment that toggled, the getter sees the value assigned
    when it is [false], and otherwise whether the container has a parent. *)
Lemma visible_after_toggle L val d container :
  probe_ignores_display L →
  getElement L (prim d) = Some container →
  visible L (toggled val container d)
  = val && bool_decide (is_Some (parentElement (dom (prim d) container))).
Proof.
  intros Hp Hc. unfold visible, toggled. cbn [prim]. rewrite Hp, Hc.
  cbn [dom with_dom]. rewrite fn_lookup_insert. cbn [style_display parentElement].
  by destruct val.
Qed.

Lemma set_display_again L val d :
  probe_ignores_display L →
  settles L val d = true →
  set_display L val (run (set_display L val) d) = Normal tt (run (set_display L val) d).
Proof.
  intros Hp Hs. unfold run at 1 2. rewrite (set_display_spec L val d). cbn [state_of].
  destruct (Bool.eqb (visible L d) val) eqn:Hv.
  - rewrite set_display_spec, Hv. reflexivity.
  - destruct (getElement L (prim d)) as [container|] eqn:Hc.
    + rewrite set_display_spec, (visible_after_toggle L val d container Hp Hc).
      unfold settles in Hs. rewrite Hc in Hs.
      destruct val; cbn [negb orb andb] in Hs |- *; [rewrite Hs|]; reflexivity.
    + rewrite set_display_spec, Hv, Hc. reflexivity.
Qed.

Lemma emitted_set_display L val d :
  emitted (run (set_display L val) d) = emitted d
  ∨ emitted (run (set_display L val) d) = emitted d ++ [displayChange val].
Proof.
  unfold run. rewrite set_display_spec. cbn [state_of].
  destruct (Bool.eqb (visible L d) val); [by left|].
  destruct (getElement L (prim d)); [by right|by left].
Qed.

Lemma leaflet_probe_ignores_display : probe_ignores_display leaflet.
Proof. intros p c s. reflexivity. Qed.


(** ** Position and export *)



Lemma leaflet_hooks_keep_options : hooks_keep_options leaflet.
Proof.
  intros m p. split; [|reflexivity].
  simpl. unfold Reference.erase. by destruct (_path p).
Qed.





(** ** Leaflet's events *)

Lemma fire_registered type e d :
  listeners d = registered →
  fire type e d = Normal tt (with_emitted (fun l => l ++ heard registered (type, e)) d).
Proof. intros H. unfold fire. by rewrite H. Qed.

(** ** The interactive property *)

Lemma set_interactive_spec L val d :
  set_interactive L val d
  = Normal tt
      {| prim := (put_back L val d).1; listeners := listeners d;
         initialized := initialized d; popupDirective := popupDirective d;
         tooltipDirective := tooltipDirective d;
         emitted := emitted d
                    ++ overheard (listeners d) (taken_off L val d).2
                    ++ overheard (listeners d) (put_back L val d).2 |}.
Proof.
  unfold set_interactive. rewrite bind_read, bind_write, bind_invoke, invoke_spec.
  cbn [prim listeners initialized popupDirective tooltipDirective emitted with_prim].
  by rewrite <- app_assoc.
Qed.

(** C8, as stated, fails on its consequence: with hooks that only move the
    path element in and out of the renderer's container, as Leaflet's do
    ([add] and [remove] are fired by the map's [addLayer] and
    [removeLayer]), [interactive = true] on an initialised circle emits
    nothing at all, so neither [displayChange(false)] nor
    [displayChange(true)]. *)
Lemma set_interactive_emits_nothing :
  emissions (set_interactive leaflet true) circle1 = []
  ∧ ¬ (In (displayChange false) (emissions (set_interactive leaflet true) circle1)
       ∧ In (displayChange true) (emissions (set_interactive leaflet true) circle1)).
Proof.
  assert (H : emissions (set_interactive leaflet true) circle1 = []).
  { vm_compute. reflexivity. }
  split; [exact H|]. rewrite H. intros [[] _].
Qed.

(** ** The listeners stay

    Only the constructor registers listeners: the methods above leave on the
    object the listeners they found. *)
Lemma methods_keep_listeners L d :
  (∀ style, listeners (run (setStyle L style) d) = listeners d)
  ∧ (∀ val, listeners (run (setLatLng L val) d) = listeners d)
  ∧ (∀ val, listeners (run (set_display L val) d) = listeners d)
  ∧ (∀ val, listeners (run (set_interactive L val) d) = listeners d)
  ∧ listeners (run (ngAfterContentInit L) d) = listeners d.
Proof.
  unfold run. repeat split.
  - intros style. by rewrite setStyle_spec.
  - intros val. by rewrite setLatLng_spec.
  - intros val. rewrite set_display_spec. cbn [state_of].
    destruct (Bool.eqb (visible L d) val); [reflexivity|].
    by destruct (getElement L (prim d)).
  - intros val. by rewrite set_interactive_spec.
  - by destruct (ngAfterContentInit_initialized L d) as [d' [-> [_ ?]]].
Qed.

(** ** Runs on the reference instance *)

(** The map fires [add] while the constructor has registered the two
    display listeners only. *)
Example constructor_run : emitted circle0 = [displayChange true].
Proof. reflexivity. Qed.

Example setStyle_run :
  emissions (setStyle leaflet half_opaque) circle1
  = [opacityChange (VNum 0.5%float); styleChange half_opaque].
Proof. vm_compute. reflexivity. Qed.

Example setLatLng_run_before_init : emissions (setLatLng leaflet here) circle0 = [].
Proof. vm_compute. reflexivity. Qed.

Example set_geoJSON_run :
  emissions (set_geoJSON leaflet paris) circle1
  = [positionChange {| lat := 48.75%float; lng := 2.5%float |};
     latChange 48.75%float; lngChange 2.5%float;
     geoJSONChange paris].
Proof. vm_compute. reflexivity. Qed.

Example ngOnDestroy_run :
  emissions (ngOnDestroy leaflet) circle1
  = [displayChange false; emitEvent removeEvent (Reference.event "remove")].
Proof. vm_compute. reflexivity. Qed.

(** * Further properties of the class *)

(** ** The remaining methods, step by step *)

Lemma setRadius_spec L val d :
  setRadius L val d
  = Normal tt
      {| prim := (Circle_setRadius L val (prim d)).1; listeners := listeners d;
         initialized := initialized d; popupDirective := popupDirective d;
         tooltipDirective := tooltipDirective d;
         emitted := emitted d
                    ++ overheard (listeners d) (Circle_setRadius L val (prim d)).2
                    ++ [radiusChange val] |}.
Proof.
  unfold setRadius. rewrite bind_invoke. unfold emit, write.
  rewrite with_emitted_literal. by rewrite <- app_assoc.
Qed.

Lemma ngAfterContentInit_spec L d :
  ngAfterContentInit L d
  = Normal tt
      {| prim := (tooltip_bound L d).1; listeners := listeners d;
         initialized := true; popupDirective := popupDirective d;
         tooltipDirective := tooltipDirective d;
         emitted := emitted d
                    ++ overheard (listeners d) (popup_bound L d).2
                    ++ overheard (listeners d) (tooltip_bound L d).2 |}.
Proof.
  unfold ngAfterContentInit, tooltip_bound, popup_bound.
  rewrite bind_write, bind_read.
  destruct d as [p ls i pd td l].
  cbn [with_initialized popupDirective tooltipDirective prim listeners initialized
       emitted].
  destruct pd as [popup|], td as [tooltip|]; cbv beta iota;
    rewrite ?bind_invoke, ?bind_ret, ?bind_read;
    cbn [with_initialized popupDirective tooltipDirective prim listeners initialized
         emitted];
    cbv beta iota; rewrite ?invoke_spec; unfold ret;
    cbn [with_initialized popupDirective tooltipDirective prim listeners initialized
         emitted fst snd overheard flat_map];
    rewrite ?app_nil_r, <- ?app_assoc; reflexivity.
Qed.

Lemma ngOnDestroy_spec L d :
  ngOnDestroy L d
  = Normal tt
      {| prim := (removeFrom L (_map (prim d)) (prim d)).1; listeners := listeners d;
         initialized := initialized d; popupDirective := popupDirective d;
         tooltipDirective := tooltipDirective d;
         emitted := emitted d
                    ++ overheard (listeners d)
                         (removeFrom L (_map (prim d)) (prim d)).2 |}.
Proof. unfold ngOnDestroy. by rewrite bind_read, invoke_spec. Qed.

Lemma set_properties_spec L val d f :
  feature (prim d) = Some f →
  set_properties L val d
  = Normal tt
      {| prim := reproperty val f (prim d); listeners := listeners d;
         initialized := initialized d; popupDirective := popupDirective d;
         tooltipDirective := tooltipDirective d;
         emitted := emitted d
                    ++ [geoJSONChange (toGeoJSON L (reproperty val f (prim d)))] |}.
Proof.
  intros Hf. unfold set_properties, bind, assign_properties. by rewrite Hf.
Qed.

Lemma no_feature_throws L d :
  feature (prim d) = None →
  (∀ val, ∃ e, set_properties L val d = Abrupt e d)
  ∧ (∀ val, ∃ e, set_geoJSON L val d = Abrupt e d).
Proof.
  intros Hf. split; intros val;
    unfold set_properties, set_geoJSON, bind, assign_properties; rewrite Hf; eauto.
Qed.

Ltac framed :=
  cbn [state_of listeners initialized popupDirective tooltipDirective emitted
       with_prim toggled sets_flag];
  rewrite ?orb_false_r, ?orb_true_r;
  repeat split; try reflexivity;
  first [ by eexists | exists []; by rewrite app_nil_r ].

Lemma perform_frame L c d :
  listeners (run (perform L c) d) = listeners d
  ∧ initialized (run (perform L c) d) = initialized d || sets_flag c
  ∧ popupDirective (run (perform L c) d) = popupDirective d
  ∧ tooltipDirective (run (perform L c) d) = tooltipDirective d
  ∧ ∃ l, emitted (run (perform L c) d) = emitted d ++ l.
Proof.
  destruct c as [val|val|val|val|val|val|val|style|style|val|val|val| | |type e];
    unfold run, perform, set_position, set_radius, set_style, set_lat, set_lng,
           get_lat, get_lng;
    rewrite ?bind_read.
  - rewrite setLatLng_spec. framed.
  - rewrite setLatLng_spec. framed.
  - rewrite setLatLng_spec. framed.
  - rewrite setLatLng_spec. framed.
  - rewrite setRadius_spec. framed.
  - rewrite setRadius_spec. framed.
  - destruct (feature (prim d)) as [f|] eqn:Hf.
    + rewrite (set_geoJSON_spec L val d f Hf).
      destruct (String.eqb (gtype (geometry val)) "Point");
        [rewrite setLatLng_spec|]; framed.
    + destruct (no_feature_throws L d Hf) as [_ H]. destruct (H val) as [e ->]. framed.
  - rewrite setStyle_spec. framed.
  - rewrite setStyle_spec. framed.
  - rewrite set_display_spec.
    destruct (Bool.eqb (visible L d) val); [framed|].
    destruct (getElement L (prim d)); framed.
  - rewrite set_interactive_spec. framed.
  - destruct (feature (prim d)) as [f|] eqn:Hf.
    + rewrite (set_properties_spec L val d f Hf). framed.
    + destruct (no_feature_throws L d Hf) as [H _]. destruct (H val) as [e ->]. framed.
  - rewrite ngAfterContentInit_spec. framed.
  - rewrite ngOnDestroy_spec. framed.
  - unfold fire. cbn [state_of]. unfold with_emitted. framed.
Qed.

(** ** What every sequence of calls keeps *)

(** The class calls [this.on] in its constructor only: the listeners it
    registered itself are still its fourteen, in the order of their
    registration, after any sequence of calls.  (Listeners that Leaflet puts
    on the same object, as [bindPopup] does, are not in this list: see
    [responds] below.) *)
Lemma reachable_listeners_are_registered L mapComponent cs :
  listeners (after L cs (constructor L mapComponent)) = registered.
Proof.
  assert (H : ∀ d, listeners (after L cs d) = listeners d).
  { induction cs as [|c cs IH]; intros d; [reflexivity|].
    cbn [after fold_left]. fold (after L cs (run (perform L c) d)).
    rewrite IH. apply perform_frame. }
  rewrite H. apply constructor_spec.
Qed.

(** X2.  The private flag is set by [ngAfterContentInit] and by nothing
    else, and nothing clears it: after any sequence of calls the flag is
    set exactly when it was set before or the sequence contains
    [ngAfterContentInit]. *)
Theorem initialized_only_by_ngAfterContentInit L cs d :
  initialized (after L cs d) = initialized d || existsb sets_flag cs.
Proof.
  revert d. induction cs as [|c cs IH]; intros d.
  - cbn. by rewrite orb_false_r.
  - cbn [after fold_left existsb]. fold (after L cs (run (perform L c) d)).
    rewrite IH. destruct (perform_frame L c d) as [_ [-> _]].
    by rewrite orb_assoc.
Qed.

(** Outputs are only ever appended: after any sequence of calls, what
    had been emitted before is still there, in the same order, at the head
    of what has been emitted, also when a call throws. *)
Lemma emitted_only_grows L cs d :
  ∃ l, emitted (after L cs d) = emitted d ++ l.
Proof.
  revert d. induction cs as [|c cs IH]; intros d.
  - exists []. cbn. by rewrite app_nil_r.
  - cbn [after fold_left]. fold (after L cs (run (perform L c) d)).
    destruct (IH (run (perform L c) d)) as [l2 ->].
    destruct (perform_frame L c d) as [_ [_ [_ [_ [l1 ->]]]]].
    exists (l1 ++ l2). by rewrite app_assoc.
Qed.

(** ** Events *)

Lemma heard_nothing ls type e :
  existsb (String.eqb type) (map fst ls) = false → heard ls (type, e) = [].
Proof.
  unfold heard. cbn [fst snd]. induction ls as [|[t fn] ls IH]; [reflexivity|].
  cbn [map existsb fst List.filter]. intros H.
  apply orb_false_elim in H as [Ht Hls].
  rewrite String.eqb_sym, Ht. by apply IH.
Qed.

(** X3.  An event of a type the constructor registered no listener for is
    ignored: on a directive that carries the constructor's listeners, firing
    it emits nothing and leaves the directive as it was.  The constructor
    subscribes to the type [dbclick]; an event of type [dblclick] is of such
    an unsubscribed type. *)
Theorem unsubscribed_event_is_ignored type e d :
  listeners d = registered →
  subscribed type = false →
  fire type e d = Normal tt d ∧ emissions (fire type e) d = [].
Proof.
  intros Hl Hs. rewrite (fire_registered type e d Hl).
  unfold subscribed in Hs. rewrite (heard_nothing registered type e Hs).
  assert (Hd : with_emitted (fun l => l ++ []) d = d).
  { destruct d; unfold with_emitted; cbn. by rewrite app_nil_r. }
  rewrite Hd. split; [reflexivity|].
  apply emissions_app. unfold run. rewrite (fire_registered type e d Hl).
  rewrite (heard_nothing registered type e Hs), Hd. cbn. by rewrite app_nil_r.
Qed.

(** The statement above at a [dblclick] event on an initialised circle. *)
Lemma unsubscribed_event_is_ignored_witness :
  listeners circle1 = registered
  ∧ subscribed "dblclick" = false
  ∧ fire "dblclick" (VStr "e") circle1 = Normal tt circle1
  ∧ emissions (fire "dblclick" (VStr "e")) circle1 = [].
Proof.
  split; [reflexivity|]. split; [reflexivity|].
  apply (unsubscribed_event_is_ignored "dblclick" (VStr "e") circle1); reflexivity.
Defined.

(** ** The constructor, again *)

Lemma overheard_early_display evs e :
  In e (overheard early_listeners evs) → is_displayChange e = true.
Proof.
  unfold overheard, heard. intros H.
  apply in_flat_map in H as [ev [_ H]].
  apply in_map_iff in H as [l [<- H]].
  apply filter_In in H as [H _].
  destruct H as [<-|[<-|[]]]; reflexivity.
Qed.

(** X5.  While the constructor runs only the two display listeners are on
    the object when [mapComponent.addLayer(this)] is called: whatever that
    call fires, a fresh directive has emitted [displayChange] only (true
    for an [add], false for a [remove]) and none of the twelve re-emitting
    outputs, not even [add]; its primitive is what [addLayer] made of
    [super([0, 0])] with the default feature, and its flag is unset. *)
Theorem constructor_emits_display_only L mapComponent :
  emitted (constructor L mapComponent)
  = overheard early_listeners (addLayer L mapComponent (featured L)).2
  ∧ Forall (fun e => is_displayChange e = true) (emitted (constructor L mapComponent))
  ∧ prim (constructor L mapComponent) = (addLayer L mapComponent (featured L)).1
  ∧ initialized (constructor L mapComponent) = false.
Proof.
  assert (H : emitted (constructor L mapComponent)
              = overheard early_listeners (addLayer L mapComponent (featured L)).2
              ∧ prim (constructor L mapComponent)
                = (addLayer L mapComponent (featured L)).1).
  { unfold constructor, run, constructor_body, allocated, on.
    repeat (first [rewrite bind_write | rewrite bind_invoke]; literal).
    unfold write. literal. cbn [state_of]. literal. split; reflexivity. }
  destruct H as [He Hp]. split; [exact He|]. split; [|split; [exact Hp|]].
  - rewrite He. apply Forall_forall. intros e. apply overheard_early_display.
  - apply constructor_spec.
Qed.

Lemma filter_overheard_none (f : Emission → bool) ls evs :
  (∀ e, is_listener_output e = true → f e = false) →
  List.filter f (overheard ls evs) = [].
Proof.
  intros Hf. pose proof (overheard_listener_output ls evs) as H.
  induction H as [|e l He _ IH]; [reflexivity|].
  cbn [List.filter]. by rewrite (Hf e He), IH.
Qed.

(** ** The radius *)

Lemma leaflet_stores_radius : stores_radius leaflet.
Proof. intros val p. reflexivity. Qed.

(** ** Feature properties and GeoJSON *)

(** X8.  On a directive whose feature exists, [properties = v] replaces the
    properties of the feature and keeps its geometry, then emits
    [geoJSONChange] once with the fresh export, whether or not the
    directive is initialised; the getter [properties] then returns [v]. *)
Theorem set_properties_replaces_and_notifies L val d f :
  feature (prim d) = Some f →
  prim (run (set_properties L val) d) = reproperty val f (prim d)
  ∧ emissions (set_properties L val) d
    = [geoJSONChange (toGeoJSON L (reproperty val f (prim d)))]
  ∧ ∃ d', (set_properties L val ;; get_properties) d = Normal val d'.
Proof.
  intros Hf. split; [unfold run; by rewrite (set_properties_spec L val d f Hf)|].
  split.
  - apply emissions_app. unfold run. by rewrite (set_properties_spec L val d f Hf).
  - unfold bind. rewrite (set_properties_spec L val d f Hf).
    unfold get_properties, reproperty. cbn [prim feature with_feature properties]. eauto.
Qed.

(** The statement above on an initialised circle. *)
Lemma set_properties_replaces_and_notifies_witness :
  feature (prim circle1) = Some empty_feature
  ∧ prim (run (set_properties leaflet greeting) circle1)
    = reproperty greeting empty_feature (prim circle1)
  ∧ emissions (set_properties leaflet greeting) circle1
    = [geoJSONChange (toGeoJSON leaflet (reproperty greeting empty_feature (prim circle1)))]
  ∧ ∃ d', (set_properties leaflet greeting ;; get_properties) circle1 = Normal greeting d'.
Proof.
  split; [reflexivity|].
  apply (set_properties_replaces_and_notifies leaflet greeting circle1 empty_feature).
  reflexivity.
Defined.

(** X9.  A rejected GeoJSON assignment changes the properties of the
    feature and nothing else: on a directive whose feature exists, for
    every feature whose geometry type is not ['Point'], the setter emits
    nothing, never reaches [setLatLng] (the primitive is the one before the
    call with the properties replaced, so position, options and DOM are
    untouched), and keeps the geometry stored in [this.feature]. *)
Theorem set_geoJSON_failure_changes_properties_only L val d f :
  feature (prim d) = Some f →
  gtype (geometry val) ≠ "Point" →
  run (set_geoJSON L val) d = with_prim (reproperty (properties val) f) d
  ∧ emissions (set_geoJSON L val) d = []
  ∧ _latlng (prim (run (set_geoJSON L val) d)) = _latlng (prim d)
  ∧ geometry <$> feature (prim (run (set_geoJSON L val) d)) = Some (geometry f).
Proof.
  intros Hf Ht. apply String.eqb_neq in Ht.
  assert (H : run (set_geoJSON L val) d = with_prim (reproperty (properties val) f) d).
  { unfold run. rewrite (set_geoJSON_spec L val d f Hf), Ht. reflexivity. }
  split; [exact H|]. split.
  - unfold emissions. rewrite H. cbn [emitted with_prim]. apply drop_all.
  - rewrite H. split; reflexivity.
Qed.

(** The statement above at a LineString feature on an initialised circle. *)
Lemma set_geoJSON_failure_changes_properties_only_witness :
  feature (prim circle1) = Some empty_feature
  ∧ gtype (geometry line) ≠ "Point"
  ∧ run (set_geoJSON leaflet line) circle1
    = with_prim (reproperty (properties line) empty_feature) circle1
  ∧ emissions (set_geoJSON leaflet line) circle1 = []
  ∧ _latlng (prim (run (set_geoJSON leaflet line) circle1)) = _latlng (prim circle1)
  ∧ geometry <$> feature (prim (run (set_geoJSON leaflet line) circle1))
    = Some (geometry empty_feature).
Proof.
  split; [reflexivity|]. split; [discriminate|].
  apply (set_geoJSON_failure_changes_properties_only leaflet line circle1 empty_feature).
  - reflexivity.
  - discriminate.
Defined.






(** ** The thirteen option properties *)

Lemma notified_singleton k out (val : Value) :
  In (k, out) style_outputs →
  flat_map (notified {[ k := val ]}) style_outputs = [out val].
Proof.
  intros Hin. simpl in Hin.
  repeat (destruct Hin as [[= <- <-]|Hin]; [vm_compute; reflexivity|]). destruct Hin.
Qed.

(** X11.  Assigning one of the thirteen option properties (stroke, color,
    weight, opacity, lineCap, lineJoin, dashArray, dashOffset, fill,
    fillColor, fillOpacity, fillRule, className) calls [setStyle] with the
    one-key bag and emits exactly two notifications of its own: the change
    of that key with the assigned value, then [styleChange] with the
    one-key bag; no other key is notified. *)
Theorem option_setter_notifies_its_key L k out val d :
  In (k, out) style_outputs →
  set_option L k val = setStyle L {[ k := val ]}
  ∧ emissions (set_option L k val) d
    = overheard (listeners d) (Path_setStyle L {[ k := val ]} (prim d)).2
      ++ [out val; styleChange {[ k := val ]}].
Proof.
  intros Hin. split; [reflexivity|].
  unfold set_option. rewrite setStyle_emissions, (notified_singleton k out val Hin).
  reflexivity.
Qed.

(** The statement above at [weight = 3] on an initialised circle. *)
Lemma option_setter_notifies_its_key_witness :
  In ("weight", weightChange) style_outputs
  ∧ set_option leaflet "weight" (VNum 3%float) = setStyle leaflet {[ "weight" := VNum 3%float ]}
  ∧ emissions (set_option leaflet "weight" (VNum 3%float)) circle1
    = overheard (listeners circle1)
        (Path_setStyle leaflet {[ "weight" := VNum 3%float ]} (prim circle1)).2
      ++ [weightChange (VNum 3%float); styleChange {[ "weight" := VNum 3%float ]}].
Proof.
  split; [do 2 right; left; reflexivity|].
  apply (option_setter_notifies_its_key leaflet "weight" weightChange (VNum 3%float) circle1).
  do 2 right. left. reflexivity.
Defined.

Lemma leaflet_merges_style : merges_style leaflet.
Proof. intros style p. reflexivity. Qed.

(** X12.  When the inherited [setStyle] merges the bag into [this.options]
    with the bag winning: after assigning [v] to one of the thirteen option
    properties its getter returns [v], and the getter of every other key
    returns what it returned before. *)
Theorem option_reads_back L k out val d :
  merges_style L →
  In (k, out) style_outputs →
  (∃ d', (set_option L k val ;; get_option k) d = Normal val d')
  ∧ ∀ k', k' ≠ k →
      ∃ d', (set_option L k val ;; get_option k') d
            = Normal (prop (options (prim d)) k') d'.
Proof.
  intros Hm _. unfold set_option, bind. rewrite setStyle_spec.
  unfold get_option, read. cbn [prim]. rewrite Hm. unfold prop. split.
  - rewrite (lookup_union_Some_l _ _ k val) by apply lookup_singleton_eq. eauto.
  - intros k' Hk. rewrite lookup_union_r by (by apply lookup_singleton_ne). eauto.
Qed.

(** The statement above on the reference instance, at [weight = 3]. *)
Lemma option_reads_back_witness :
  (∃ d', (set_option leaflet "weight" (VNum 3%float) ;; get_option "weight") red_circle
         = Normal (VNum 3%float) d')
  ∧ ∀ k', k' ≠ "weight" →
      ∃ d', (set_option leaflet "weight" (VNum 3%float) ;; get_option k') red_circle
            = Normal (prop (options (prim red_circle)) k') d'.
Proof.
  apply (option_reads_back leaflet "weight" weightChange (VNum 3%float) red_circle).
  - exact leaflet_merges_style.
  - do 2 right. left. reflexivity.
Defined.

(** X13.  The interactive setter writes one option: when the two hooks
    leave [this.options] alone, every option other than [interactive] reads
    after [interactive = v] as it read before. *)
Theorem set_interactive_keeps_other_options L val k d :
  hooks_keep_options L →
  k ≠ "interactive" →
  get_option k (run (set_interactive L val) d)
  = Normal (prop (options (prim d)) k) (run (set_interactive L val) d).
Proof.
  intros Hk Hne. unfold run. rewrite set_interactive_spec. cbn [state_of].
  unfold get_option, read. cbn [prim]. f_equal.
  unfold put_back, taken_off, flagged.
  destruct (Hk (_map (prim d))
              (onRemove L (_map (prim d))
                 (with_options (insert "interactive" (VBool val)) (prim d))).1)
    as [_ ->].
  destruct (Hk (_map (prim d))
              (with_options (insert "interactive" (VBool val)) (prim d)))
    as [-> _].
  unfold prop. cbn [options with_options]. by rewrite lookup_insert_ne.
Qed.

(** The statement above on the reference instance: the colour survives. *)
Lemma set_interactive_keeps_other_options_witness :
  "color" ≠ "interactive"
  ∧ get_option "color" (run (set_interactive leaflet false) red_circle)
    = Normal (prop (options (prim red_circle)) "color")
        (run (set_interactive leaflet false) red_circle).
Proof.
  split; [discriminate|].
  apply (set_interactive_keeps_other_options leaflet false "color" red_circle).
  - exact leaflet_hooks_keep_options.
  - discriminate.
Defined.

(** ** The display property, again *)

(** X14.  Reading [display] after [display = v].  When [getElement] hands
    out the same container whatever display style was written into it, and
    it hands out a container: the getter returns [v] if the container has a
    parent element, and [false] whatever [v] if it has none. *)
Theorem display_reads_back L val d container :
  probe_ignores_display L →
  getElement L (prim d) = Some container →
  ∃ d', (set_display L val ;; get_display L) d
        = Normal (val && bool_decide (is_Some (parentElement (dom (prim d) container)))) d'.
Proof.
  intros Hp Hc. unfold bind. rewrite set_display_spec, get_display_spec.
  destruct (Bool.eqb (visible L d) val) eqn:Hv.
  - eexists. f_equal. apply Bool.eqb_prop in Hv. rewrite <- Hv.
    unfold visible. rewrite Hc.
    by destruct (negb _), (bool_decide _).
  - rewrite Hc, (visible_after_toggle L val d container Hp Hc). eauto.
Qed.

(** The statement above on the reference instance: hiding a circle that is
    on the map. *)
Lemma display_reads_back_witness :
  getElement leaflet (prim circle1) = Some Reference.path
  ∧ (∃ d', (set_display leaflet false ;; get_display leaflet) circle1
           = Normal (false && bool_decide
                       (is_Some (parentElement (dom (prim circle1) Reference.path)))) d')
  ∧ get_display leaflet circle1 = Normal true circle1.
Proof.
  split; [reflexivity|]. split; [|reflexivity].
  apply (display_reads_back leaflet false circle1 Reference.path).
  - exact leaflet_probe_ignores_display.
  - reflexivity.
Defined.

(** X15.  [display = v] writes at most one thing: the display style of the
    container [getElement] hands out.  It leaves position, options, feature
    and map as they were, never changes the parent of any node, and leaves
    every node other than the container untouched. *)
Theorem set_display_writes_one_style L val d :
  _latlng (prim (run (set_display L val) d)) = _latlng (prim d)
  ∧ options (prim (run (set_display L val) d)) = options (prim d)
  ∧ feature (prim (run (set_display L val) d)) = feature (prim d)
  ∧ _map (prim (run (set_display L val) d)) = _map (prim d)
  ∧ (∀ c, parentElement (dom (prim (run (set_display L val) d)) c)
          = parentElement (dom (prim d) c))
  ∧ (∀ c, getElement L (prim d) ≠ Some c →
          dom (prim (run (set_display L val) d)) c = dom (prim d) c).
Proof.
  unfold run. rewrite set_display_spec. cbn [state_of].
  destruct (Bool.eqb (visible L d) val); [by repeat split|].
  destruct (getElement L (prim d)) as [container|]; [|by repeat split].
  unfold toggled. cbn [prim with_dom _latlng options feature _map dom].
  repeat split; try reflexivity.
  - intros c. destruct (decide (container = c)) as [<-|Hne].
    + by rewrite fn_lookup_insert.
    + by rewrite fn_lookup_insert_ne.
  - intros c Hc. rewrite fn_lookup_insert_ne; [reflexivity|]. congruence.
Qed.

(** ** Initialisation *)

(** X16.  [ngAfterContentInit] always sets the flag; it binds the popup
    child if there is one and then, on the result, the tooltip child if
    there is one; it leaves the listeners and the children as they were and
    emits nothing of its own.  Without children it changes nothing but the
    flag. *)
Theorem ngAfterContentInit_binds_children_in_order L d :
  ngAfterContentInit L d
  = Normal tt
      {| prim := (tooltip_bound L d).1; listeners := listeners d;
         initialized := true; popupDirective := popupDirective d;
         tooltipDirective := tooltipDirective d;
         emitted := emitted d
                    ++ overheard (listeners d) (popup_bound L d).2
                    ++ overheard (listeners d) (tooltip_bound L d).2 |}
  ∧ initialized (run (ngAfterContentInit L) d) = true
  ∧ prim (run (ngAfterContentInit L) d) = (tooltip_bound L d).1
  ∧ emissions (ngAfterContentInit L) d
    = overheard (listeners d) (popup_bound L d).2
      ++ overheard (listeners d) (tooltip_bound L d).2
  ∧ (popupDirective d = None → tooltipDirective d = None →
     ngAfterContentInit L d = Normal tt (with_initialized true d)).
Proof.
  split; [apply ngAfterContentInit_spec|].
  split; [unfold run; by rewrite ngAfterContentInit_spec|].
  split; [unfold run; by rewrite ngAfterContentInit_spec|]. split.
  - apply emissions_app. unfold run. by rewrite ngAfterContentInit_spec.
  - intros Hp Ht. rewrite ngAfterContentInit_spec.
    unfold tooltip_bound, popup_bound. rewrite Hp, Ht.
    cbn [fst snd overheard flat_map]. rewrite !app_nil_r.
    unfold with_initialized. by rewrite Hp, Ht.
Qed.

(** ** Latitude and longitude *)



(** ** Position *)





(** ** Methods that emit through listeners only *)

(** X20.  [ngOnDestroy] hands to [removeFrom] the map the primitive is on,
    and like [ngAfterContentInit] and the interactive setter it emits
    nothing of its own: whatever these three emit was emitted by a listener
    for an event fired by the Leaflet call, so none of them ever emits a
    style, position, radius or GeoJSON notification. *)
Theorem lifecycle_methods_emit_through_listeners_only L d :
  prim (run (ngOnDestroy L) d) = (removeFrom L (_map (prim d)) (prim d)).1
  ∧ emissions (ngOnDestroy L) d
    = overheard (listeners d) (removeFrom L (_map (prim d)) (prim d)).2
  ∧ Forall (fun e => is_listener_output e = true) (emissions (ngOnDestroy L) d)
  ∧ Forall (fun e => is_listener_output e = true) (emissions (ngAfterContentInit L) d)
  ∧ ∀ val, Forall (fun e => is_listener_output e = true)
             (emissions (set_interactive L val) d).
Proof.
  assert (Hd : emissions (ngOnDestroy L) d
               = overheard (listeners d) (removeFrom L (_map (prim d)) (prim d)).2).
  { apply emissions_app. unfold run. by rewrite ngOnDestroy_spec. }
  split; [unfold run; by rewrite ngOnDestroy_spec|]. split; [exact Hd|]. split.
  - rewrite Hd. apply overheard_listener_output.
  - split.
    + rewrite (emissions_app (ngAfterContentInit L) d
                 (overheard (listeners d) (popup_bound L d).2
                  ++ overheard (listeners d) (tooltip_bound L d).2)).
      * apply Forall_app; split; apply overheard_listener_output.
      * unfold run. by rewrite ngAfterContentInit_spec.
    + intros val.
      rewrite (emissions_app (set_interactive L val) d
                 (overheard (listeners d) (taken_off L val d).2
                  ++ overheard (listeners d) (put_back L val d).2)).
      * apply Forall_app; split; apply overheard_listener_output.
      * unfold run. by rewrite set_interactive_spec.
Qed.

(** ** A day in the life of a circle, on the reference instance *)

(** Constructed on a map ([add] reaches the display listener only), then:
    a latitude assigned before initialisation (silent), initialisation, a
    LineString assigned (rejected, silent), a click, the circle hidden, the
    directive destroyed. *)
Example busy_day_run :
  emitted (after leaflet busy_day circle0)
  = [displayChange true;
     emitEvent clickEvent (VStr "e");
     displayChange false;
     displayChange false;
     emitEvent removeEvent (Reference.event "remove")]
  ∧ properties <$> feature (prim (after leaflet busy_day circle0)) = Some (VStr "road")
  ∧ _latlng (prim (after leaflet busy_day circle0)) = {| lat := north; lng := 0%float |}.
Proof. vm_compute. repeat split. Qed.

(** * When a call into Leaflet does not return *)

Lemma attempt_returns call thrown d :
  thrown (prim d) = None → attempt call thrown d = invoke call d.
Proof. intros Hn. unfold attempt. by rewrite Hn. Qed.

Lemma attempt_throws call thrown d e so_far :
  thrown (prim d) = Some (e, so_far) →
  attempt call thrown d = Abrupt e (left_by so_far d).
Proof.
  intros Ht. unfold attempt. rewrite Ht. unfold bind. by rewrite invoke_spec.
Qed.

Lemma emitted_left_by so_far d :
  emitted (left_by so_far d) = emitted d ++ overheard (listeners d) so_far.2.
Proof. reflexivity. Qed.

(** ** [setLatLng] *)

Lemma raising_setLatLng_returns L H val d :
  setLatLng_throws H val (prim d) = None →
  Raising.setLatLng L H val d = setLatLng L val d.
Proof.
  intros Hn. unfold Raising.setLatLng, setLatLng, bind.
  by rewrite (attempt_returns _ _ d Hn).
Qed.

Lemma raising_setLatLng_throws L H val d e so_far :
  setLatLng_throws H val (prim d) = Some (e, so_far) →
  Raising.setLatLng L H val d = Abrupt e (left_by so_far d).
Proof.
  intros Ht. unfold Raising.setLatLng, bind.
  by rewrite (attempt_throws _ _ d e so_far Ht).
Qed.

(** C3 (as amended).  For every position value and every state,
    [setLatLng] hands the value to the inherited [setLatLng] whether or not
    the directive is initialised.  When that call returns, the method
    returns, and it emits [positionChange], [latChange], [lngChange] and
    [geoJSONChange], in this order, with the position the primitive now
    holds, its two components and the fresh export, if and only if
    [ngAfterContentInit] has run (the constructor leaves the flag unset).
    When that call throws, the method throws the same error with the
    primitive as the call left it and emits none of the four, initialised
    or not. *)
Theorem setLatLng_notifies_once_initialized_and_returned L H val d :
  match setLatLng_throws H val (prim d) with
  | None =>
      (∃ d', Raising.setLatLng L H val d = Normal tt d')
      ∧ prim (run (Raising.setLatLng L H val) d) = (Circle_setLatLng L val (prim d)).1
      ∧ List.filter is_position_output (emissions (Raising.setLatLng L H val) d)
        = (if initialized d
           then [positionChange (_latlng (Circle_setLatLng L val (prim d)).1);
                 latChange (lat (_latlng (Circle_setLatLng L val (prim d)).1));
                 lngChange (lng (_latlng (Circle_setLatLng L val (prim d)).1));
                 geoJSONChange (toGeoJSON L (Circle_setLatLng L val (prim d)).1)]
           else [])
  | Some (e, so_far) =>
      Raising.setLatLng L H val d = Abrupt e (left_by so_far d)
      ∧ List.filter is_position_output (emissions (Raising.setLatLng L H val) d) = []
  end
  ∧ initialized (run (ngAfterContentInit L) d) = true
  ∧ ∀ mapComponent, initialized (constructor L mapComponent) = false.
Proof.
  split.
  - destruct (setLatLng_throws H val (prim d)) as [[e so_far]|] eqn:Ht.
    + split; [by apply raising_setLatLng_throws|].
      unfold emissions, run. rewrite (raising_setLatLng_throws L H val d e so_far Ht).
      cbn [state_of]. rewrite emitted_left_by, drop_app_length.
      apply filter_position_overheard.
    + unfold emissions, run. rewrite (raising_setLatLng_returns L H val d Ht).
      split; [rewrite setLatLng_spec; eauto|].
      split; [by rewrite setLatLng_spec|].
      fold (run (setLatLng L val) d). fold (emissions (setLatLng L val) d).
      rewrite setLatLng_emissions, List.filter_app, filter_position_overheard.
      by destruct (initialized d).
  - split.
    + unfold run. by rewrite ngAfterContentInit_spec.
    + intros m. apply constructor_spec.
Qed.

(** C3, as stated, fails where the inherited call throws: on an initialised
    circle, [setLatLng([NaN, 0])] throws Leaflet's 'Invalid LatLng object'
    and none of the four notifications is emitted. *)
Lemma setLatLng_at_NaN_emits_nothing :
  initialized circle1 = true
  ∧ (∃ d', Raising.setLatLng leaflet hazards nowhere circle1
           = Abrupt (Error "Invalid LatLng object") d')
  ∧ emissions (Raising.setLatLng leaflet hazards nowhere) circle1 = [].
Proof.
  split; [reflexivity|]. split.
  - eexists. vm_compute. reflexivity.
  - vm_compute. reflexivity.
Qed.

(** ** The GeoJSON setter *)

Lemma raising_set_geoJSON_spec L H val d f :
  feature (prim d) = Some f →
  Raising.set_geoJSON L H val d
  = if String.eqb (gtype (geometry val)) "Point"
    then Raising.setLatLng L H (lng2lat L (coordinates (geometry val)))
           (with_prim (reproperty (properties val) f) d)
    else Abrupt (Error (String.append "Unsupported geometry type: "
                          (gtype (geometry val))))
           (with_prim (reproperty (properties val) f) d).
Proof.
  intros Hf. unfold Raising.set_geoJSON, bind, assign_properties. rewrite Hf.
  by destruct (String.eqb (gtype (geometry val)) "Point").
Qed.

(** C4 (as amended).  On a directive whose feature exists (the constructor
    creates it), the GeoJSON setter throws
    [Error('Unsupported geometry type: ' + type)] for every feature whose
    geometry type is not ['Point'], whatever its coordinates, leaving the
    directive with the properties replaced and nothing else changed.  For a
    ['Point'] feature it never throws that error: with the properties
    stored it hands [lng2lat(coordinates)] to the inherited [setLatLng] and
    completes as [setLatLng] does: when the inherited call returns, the
    setter returns, the primitive is the one that call made, and the four
    position notifications are emitted if and only if the directive is
    initialised; when the inherited call throws, the setter throws the same
    error with the primitive as the call left it. *)
Theorem set_geoJSON_completes_as_setLatLng L H val d f :
  feature (prim d) = Some f →
  (gtype (geometry val) ≠ "Point" →
   Raising.set_geoJSON L H val d
   = Abrupt (Error (String.append "Unsupported geometry type: " (gtype (geometry val))))
       (with_prim (reproperty (properties val) f) d))
  ∧ (gtype (geometry val) = "Point" →
     match setLatLng_throws H (lng2lat L (coordinates (geometry val)))
             (reproperty (properties val) f (prim d)) with
     | None =>
         (∃ d', Raising.set_geoJSON L H val d = Normal tt d')
         ∧ prim (run (Raising.set_geoJSON L H val) d)
           = (Circle_setLatLng L (lng2lat L (coordinates (geometry val)))
                (reproperty (properties val) f (prim d))).1
         ∧ List.filter is_position_output (emissions (Raising.set_geoJSON L H val) d)
           = (if initialized d
              then [positionChange (_latlng (prim (run (Raising.set_geoJSON L H val) d)));
                    latChange (lat (_latlng (prim (run (Raising.set_geoJSON L H val) d))));
                    lngChange (lng (_latlng (prim (run (Raising.set_geoJSON L H val) d))));
                    geoJSONChange (toGeoJSON L (prim (run (Raising.set_geoJSON L H val) d)))]
              else [])
     | Some (e, so_far) =>
         Raising.set_geoJSON L H val d
         = Abrupt e (left_by so_far (with_prim (reproperty (properties val) f) d))
     end).
Proof.
  intros Hf. rewrite (raising_set_geoJSON_spec L H val d f Hf). split; intros Ht.
  - apply String.eqb_neq in Ht. by rewrite Ht.
  - apply String.eqb_eq in Ht.
    destruct (setLatLng_throws H (lng2lat L (coordinates (geometry val)))
                (reproperty (properties val) f (prim d))) as [[e so_far]|] eqn:Hthrow.
    + rewrite Ht. by apply raising_setLatLng_throws.
    + unfold emissions, run. rewrite (raising_set_geoJSON_spec L H val d f Hf), Ht.
      rewrite (raising_setLatLng_returns L H _
                 (with_prim (reproperty (properties val) f) d) Hthrow).
      rewrite setLatLng_spec. cbn [state_of prim emitted with_prim initialized listeners].
      split; [eauto|]. split; [reflexivity|].
      rewrite drop_app_length, List.filter_app, filter_position_overheard.
      by destruct (initialized d).
Qed.

(** The statement above at a Point feature on an initialised circle. *)
Lemma set_geoJSON_completes_as_setLatLng_witness :
  feature (prim circle1) = Some empty_feature
  ∧ gtype (geometry paris) = "Point"
  ∧ (∃ d', Raising.set_geoJSON leaflet hazards paris circle1 = Normal tt d')
  ∧ _latlng (prim (run (Raising.set_geoJSON leaflet hazards paris) circle1))
    = {| lat := 48.75%float; lng := 2.5%float |}.
Proof.
  split; [reflexivity|]. split; [reflexivity|].
  destruct (set_geoJSON_completes_as_setLatLng leaflet hazards paris circle1
              empty_feature eq_refl) as [_ Hpoint].
  destruct (Hpoint eq_refl) as [Hreturns [Hprim _]].
  split; [exact Hreturns|]. rewrite Hprim. reflexivity.
Defined.

(** C4, as stated, fails on 'does not raise': on an initialised circle, a
    ['Point'] feature with a NaN coordinate makes the setter throw, with
    the error of the inherited [setLatLng]. *)
Lemma set_geoJSON_point_at_NaN_raises :
  gtype (geometry lost) = "Point"
  ∧ ∃ d', Raising.set_geoJSON leaflet hazards lost circle1
          = Abrupt (Error "Invalid LatLng object") d'.
Proof. split; [reflexivity|]. eexists. vm_compute. reflexivity. Qed.

(** ** The display property *)








(** A circle that was never drawn has no element: reading or assigning
    [display] throws. *)
Example display_without_element :
  Raising.probe leaflet hazards (prim (allocated leaflet)) = probe_undefined
  ∧ Raising.get_display leaflet hazards (allocated leaflet)
    = Abrupt (TypeError "Cannot read property 'style' of undefined") (allocated leaflet)
  ∧ Raising.set_display leaflet hazards true (allocated leaflet)
    = Abrupt (TypeError "Cannot read property 'style' of undefined") (allocated leaflet).
Proof. repeat split. Qed.

(** ** Events, with Leaflet's own listeners *)

Lemma receive_spec H type e d :
  Raising.receive H type e d
  = Normal tt
      {| prim := (responds H type e (prim d)).1; listeners := listeners d;
         initialized := initialized d; popupDirective := popupDirective d;
         tooltipDirective := tooltipDirective d;
         emitted := emitted d
                    ++ heard (listeners d) (type, e)
                    ++ overheard (listeners d) (responds H type e (prim d)).2 |}.
Proof.
  unfold Raising.receive, bind, fire. rewrite invoke_spec.
  cbn [prim listeners initialized popupDirective tooltipDirective emitted with_emitted].
  by rewrite <- app_assoc.
Qed.

Lemma receive_emissions H type e d :
  emissions (Raising.receive H type e) d
  = heard (listeners d) (type, e)
    ++ overheard (listeners d) (responds H type e (prim d)).2.
Proof. apply emissions_app. unfold run. by rewrite receive_spec. Qed.

Lemma constructor_emitted L mapComponent :
  emitted (constructor L mapComponent)
  = overheard early_listeners (addLayer L mapComponent (featured L)).2.
Proof.
  unfold constructor, run, constructor_body, allocated, on.
  repeat (first [rewrite bind_write | rewrite bind_invoke]; literal).
  unfold write. literal. cbn [state_of]. literal. reflexivity.
Qed.

(** C7 (as amended).  Once the constructor has returned (the directive
    carries its fourteen listeners), every [add] event fired on the
    primitive makes the listeners of the class emit [displayChange(true)]
    once and then the event itself on the [add] output, and every [remove]
    event [displayChange(false)] once and then the event on the [remove]
    output; these come first, and whatever else is emitted during the event
    comes from the events that Leaflet's own listeners on the object fire
    in response.  Neither the rendering container nor the display setter
    takes part.  The [add] that [mapComponent.addLayer(this)] fires inside
    the constructor is different: only the two display listeners are
    registered by then, so it emits [displayChange(true)] and is not
    re-emitted. *)
Theorem add_and_remove_after_construction L H d e :
  listeners d = registered →
  emissions (Raising.receive H "add" e) d
  = [displayChange true; emitEvent addEvent e]
    ++ overheard registered (responds H "add" e (prim d)).2
  ∧ emissions (Raising.receive H "remove" e) d
    = [displayChange false; emitEvent removeEvent e]
      ++ overheard registered (responds H "remove" e (prim d)).2
  ∧ prim (run (Raising.receive H "add" e) d) = (responds H "add" e (prim d)).1
  ∧ prim (run (Raising.receive H "remove" e) d) = (responds H "remove" e (prim d)).1
  ∧ ∀ mapComponent,
      emitted (constructor L mapComponent)
      = overheard early_listeners (addLayer L mapComponent (featured L)).2
      ∧ Forall (fun out => is_displayChange out = true)
          (emitted (constructor L mapComponent)).
Proof.
  intros Hl. rewrite !receive_emissions, Hl.
  split; [reflexivity|]. split; [reflexivity|].
  unfold run. rewrite !receive_spec. cbn [state_of prim].
  split; [reflexivity|]. split; [reflexivity|].
  intros m. rewrite constructor_emitted. split; [reflexivity|].
  apply Forall_forall. intros out. apply overheard_early_display.
Qed.

(** The statement above on a constructed and initialised circle without
    popup or tooltip: nothing follows the two emissions. *)
Lemma add_and_remove_after_construction_witness :
  listeners circle1 = registered
  ∧ emissions (Raising.receive hazards "add" (VStr "e")) circle1
    = [displayChange true; emitEvent addEvent (VStr "e")]
  ∧ emissions (Raising.receive hazards "remove" (VStr "e")) circle1
    = [displayChange false; emitEvent removeEvent (VStr "e")].
Proof.
  split; [reflexivity|].
  destruct (add_and_remove_after_construction leaflet hazards circle1 (VStr "e") eq_refl)
    as [Hadd [Hremove _]].
  split; [exact Hadd|exact Hremove].
Defined.

(** C7, as stated, fails for the [add] event fired inside the constructor:
    [addLayer] fires it, the directive emits [displayChange(true)], and the
    event is not re-emitted on the [add] output. *)
Lemma add_inside_constructor_is_not_re_emitted :
  (addLayer leaflet 7 (featured leaflet)).2 = [("add", Reference.event "add")]
  ∧ emitted (constructor leaflet 7) = [displayChange true]
  ∧ ¬ In (emitEvent addEvent (Reference.event "add")) (emitted (constructor leaflet 7)).
Proof.
  split; [reflexivity|]. split; [reflexivity|].
  intros [Hin|[]]. discriminate Hin.
Qed.

(** X4.  Once the constructor has returned, each of the ten event types
    with a single listener (popupopen, popupclose, tooltipopen,
    tooltipclose, click, dbclick, mousedown, mouseover, mouseout,
    contextmenu) is re-emitted by the class once, first, on the output of
    the same name and with the payload it was fired with; whatever else is
    emitted during the event comes from the events that Leaflet's own
    listeners fire in response (a bound popup that opens on a click fires
    [popupopen]). *)
Theorem single_listener_events_are_re_emitted_first H type out e d :
  listeners d = registered →
  In (type, out) event_outputs →
  emissions (Raising.receive H type e) d
  = emitEvent out e :: overheard registered (responds H type e (prim d)).2
  ∧ prim (run (Raising.receive H type e) d) = (responds H type e (prim d)).1.
Proof.
  intros Hl Hin.
  assert (Hh : heard registered (type, e) = [emitEvent out e]).
  { simpl in Hin.
    repeat (destruct Hin as [[= <- <-]|Hin]; [reflexivity|]). destruct Hin. }
  rewrite receive_emissions, Hl, Hh. split; [reflexivity|].
  unfold run. by rewrite receive_spec.
Qed.

(** The statement above at a click on a circle with a popup bound: the
    click is re-emitted, then the opening of the popup. *)
Lemma single_listener_events_are_re_emitted_first_witness :
  listeners circle1 = registered
  ∧ In ("click", clickEvent) event_outputs
  ∧ emissions (Raising.receive popup_hazards "click" (VStr "e")) circle1
    = [emitEvent clickEvent (VStr "e");
       emitEvent popupopenEvent (Reference.event "popupopen")].
Proof.
  split; [reflexivity|]. split; [do 4 right; left; reflexivity|].
  destruct (single_listener_events_are_re_emitted_first popup_hazards
              "click" clickEvent (VStr "e") circle1 eq_refl) as [Hclick _].
  - do 4 right. left. reflexivity.
  - exact Hclick.
Defined.

(** ** The interactive property *)

(** C8 (as amended).  When the two hooks leave [this.options] alone: for
    every boolean [v] and every state, [interactive = v] reads the map,
    writes [v] into [options.interactive], then calls [onRemove(map)] on
    the result.  If [onRemove] throws (as it does off the map), the
    assignment throws that error with the option already written and
    [onAdd] is not called.  Otherwise it calls [onAdd(map)] on what
    [onRemove] made; if [onAdd] throws, the assignment throws that error.
    If both return, the assignment returns, the primitive is what [onAdd]
    made, and the getter returns [v].  The setter emits nothing of its own
    and fires no event: the only outputs emitted meanwhile are those of the
    listeners for the events that [onRemove] and then [onAdd] themselves
    fire. *)
Theorem set_interactive_writes_then_runs_the_hooks L H val d :
  hooks_keep_options L →
  match onRemove_throws H (_map (prim d)) (flagged val d) with
  | Some (e, so_far) =>
      Raising.set_interactive L H val d = Abrupt e (left_by so_far d)
  | None =>
      match onAdd_throws H (_map (prim d)) (taken_off L val d).1 with
      | Some (e, so_far) =>
          Raising.set_interactive L H val d
          = Abrupt e (left_by so_far (left_by (taken_off L val d) d))
      | None =>
          (∃ d', Raising.set_interactive L H val d = Normal tt d')
          ∧ prim (run (Raising.set_interactive L H val) d) = (put_back L val d).1
          ∧ emissions (Raising.set_interactive L H val) d
            = overheard (listeners d) (taken_off L val d).2
              ++ overheard (listeners d) (put_back L val d).2
          ∧ get_interactive (run (Raising.set_interactive L H val) d)
            = Normal (VBool val) (run (Raising.set_interactive L H val) d)
      end
  end.
Proof.
  intros Hk.
  assert (Hstart : Raising.set_interactive L H val d
    = (attempt (onRemove L (_map (prim d))) (onRemove_throws H (_map (prim d))) ;;
       attempt (onAdd L (_map (prim d))) (onAdd_throws H (_map (prim d))))
        (with_prim (with_options (insert "interactive" (VBool val))) d))
    by reflexivity.
  destruct (onRemove_throws H (_map (prim d)) (flagged val d)) as [[e so_far]|] eqn:Hr.
  - rewrite Hstart. unfold bind.
    by rewrite (attempt_throws _ _
                  (with_prim (with_options (insert "interactive" (VBool val))) d)
                  e so_far Hr).
  - assert (Hmid : Raising.set_interactive L H val d
      = attempt (onAdd L (_map (prim d))) (onAdd_throws H (_map (prim d)))
          (left_by (taken_off L val d) d)).
    { rewrite Hstart. unfold bind.
      rewrite (attempt_returns _ _
                 (with_prim (with_options (insert "interactive" (VBool val))) d) Hr).
      by rewrite invoke_spec. }
    destruct (onAdd_throws H (_map (prim d)) (taken_off L val d).1)
      as [[e so_far]|] eqn:Ha.
    + rewrite Hmid. by apply attempt_throws.
    + assert (Hsame : Raising.set_interactive L H val d = set_interactive L val d).
      { rewrite Hmid, (attempt_returns _ _ (left_by (taken_off L val d) d) Ha).
        rewrite invoke_spec, set_interactive_spec. unfold left_by, put_back.
        cbn [prim listeners initialized popupDirective tooltipDirective emitted].
        by rewrite <- app_assoc. }
      unfold emissions, run. rewrite Hsame, set_interactive_spec. cbn [state_of].
      split; [eauto|]. split; [reflexivity|]. split.
      * cbn [emitted]. by rewrite drop_app_length.
      * unfold get_interactive, read. cbn [prim]. f_equal.
        unfold put_back, taken_off, flagged.
        destruct (Hk (_map (prim d))
                    (onRemove L (_map (prim d))
                       (with_options (insert "interactive" (VBool val)) (prim d))).1)
          as [_ ->].
        destruct (Hk (_map (prim d))
                    (with_options (insert "interactive" (VBool val)) (prim d)))
          as [-> _].
        unfold prop. cbn [options with_options]. by rewrite lookup_insert_eq.
Qed.

(** The statement above on the reference instance, at [interactive = false]
    on a circle that is on its map: both hooks return. *)
Lemma set_interactive_writes_then_runs_the_hooks_witness :
  hooks_keep_options leaflet
  ∧ (∃ d', Raising.set_interactive leaflet hazards false circle1 = Normal tt d')
  ∧ prim (run (Raising.set_interactive leaflet hazards false) circle1)
    = (put_back leaflet false circle1).1
  ∧ emissions (Raising.set_interactive leaflet hazards false) circle1
    = overheard (listeners circle1) (taken_off leaflet false circle1).2
      ++ overheard (listeners circle1) (put_back leaflet false circle1).2
  ∧ get_interactive (run (Raising.set_interactive leaflet hazards false) circle1)
    = Normal (VBool false) (run (Raising.set_interactive leaflet hazards false) circle1).
Proof.
  split; [exact leaflet_hooks_keep_options|].
  exact (set_interactive_writes_then_runs_the_hooks leaflet hazards false circle1
           leaflet_hooks_keep_options).
Defined.

(** Off the map the first hook throws: the option is written, nothing is
    emitted, and the assignment does not return. *)
Example set_interactive_off_the_map :
  _map (prim removed_circle) = None
  ∧ ∃ d', Raising.set_interactive leaflet hazards false removed_circle
          = Abrupt (TypeError "Cannot read property '_targets' of null") d'
          ∧ get_interactive d' = Normal (VBool false) d'
          ∧ emitted d' = emitted removed_circle.
Proof.
  split; [reflexivity|]. eexists. split; [vm_compute; reflexivity|].
  split; vm_compute; reflexivity.
Qed.

(** ** The radius *)

Lemma raising_setRadius_returns L H val d :
  setRadius_throws H val (prim d) = None →
  Raising.setRadius L H val d = setRadius L val d.
Proof.
  intros Hn. unfold Raising.setRadius, setRadius, bind.
  by rewrite (attempt_returns _ _ d Hn).
Qed.

Lemma raising_setRadius_throws L H val d e so_far :
  setRadius_throws H val (prim d) = Some (e, so_far) →
  Raising.setRadius L H val d = Abrupt e (left_by so_far d).
Proof.
  intros Ht. unfold Raising.setRadius, bind.
  by rewrite (attempt_throws _ _ d e so_far Ht).
Qed.

(** X6.  [setRadius] hands the value to the inherited [setRadius], whether
    or not the directive is initialised.  When that call returns, the
    method returns and emits [radiusChange] with the value it was given,
    once, as the last emission of the call.  When that call throws (a NaN
    radius on a circle that is on a map), the method throws the same error
    with the primitive as the call left it, and [radiusChange] is not
    emitted. *)
Theorem setRadius_notifies_when_returned L H val d :
  match setRadius_throws H val (prim d) with
  | None =>
      (∃ d', Raising.setRadius L H val d = Normal tt d')
      ∧ prim (run (Raising.setRadius L H val) d) = (Circle_setRadius L val (prim d)).1
      ∧ emissions (Raising.setRadius L H val) d
        = overheard (listeners d) (Circle_setRadius L val (prim d)).2
          ++ [radiusChange val]
      ∧ List.filter is_radiusChange (emissions (Raising.setRadius L H val) d)
        = [radiusChange val]
  | Some (e, so_far) =>
      Raising.setRadius L H val d = Abrupt e (left_by so_far d)
      ∧ List.filter is_radiusChange (emissions (Raising.setRadius L H val) d) = []
  end.
Proof.
  assert (Hquiet : ∀ ls evs, List.filter is_radiusChange (overheard ls evs) = []).
  { intros ls evs. apply filter_overheard_none.
    intros out Hout. destruct out; cbn in Hout |- *; congruence. }
  destruct (setRadius_throws H val (prim d)) as [[e so_far]|] eqn:Ht.
  - split; [by apply raising_setRadius_throws|].
    unfold emissions, run. rewrite (raising_setRadius_throws L H val d e so_far Ht).
    cbn [state_of]. rewrite emitted_left_by, drop_app_length. apply Hquiet.
  - unfold emissions, run. rewrite (raising_setRadius_returns L H val d Ht).
    rewrite setRadius_spec. cbn [state_of prim emitted].
    split; [eauto|]. split; [reflexivity|]. rewrite drop_app_length.
    split; [reflexivity|]. by rewrite List.filter_app, Hquiet.
Qed.

(** X7.  When the inherited [setRadius] stores the radius that [getRadius]
    returns, and returns: after [radius = v] the getter [radius] returns
    [v], the value that was emitted on [radiusChange]. *)
Theorem radius_reads_back_when_returned L H val d :
  stores_radius L →
  setRadius_throws H val (prim d) = None →
  ∃ d', (Raising.set_radius L H val ;; get_radius L) d = Normal val d'
        ∧ In (radiusChange val) (emissions (Raising.set_radius L H val) d).
Proof.
  intros Hs Hn. unfold Raising.set_radius, emissions, run, bind.
  rewrite (raising_setRadius_returns L H val d Hn), setRadius_spec.
  unfold get_radius, read. cbn [prim state_of emitted]. rewrite Hs.
  eexists. split; [reflexivity|].
  rewrite drop_app_length. apply in_or_app. right. by left.
Qed.

(** The statement above on the reference instance, at radius 500. *)
Lemma radius_reads_back_when_returned_witness :
  stores_radius leaflet
  ∧ setRadius_throws hazards wide (prim circle1) = None
  ∧ ∃ d', (Raising.set_radius leaflet hazards wide ;; get_radius leaflet) circle1
          = Normal wide d'
          ∧ In (radiusChange wide) (emissions (Raising.set_radius leaflet hazards wide) circle1).
Proof.
  split; [exact leaflet_stores_radius|]. split; [reflexivity|].
  apply (radius_reads_back_when_returned leaflet hazards wide circle1).
  - exact leaflet_stores_radius.
  - reflexivity.
Defined.

(** A NaN radius on a circle that is on its map: stored, then the redraw
    throws, and [radiusChange] is not emitted. *)
Example setRadius_at_NaN :
  ∃ d', Raising.setRadius leaflet hazards nan circle1
        = Abrupt (Error "Invalid LatLng object") d'
        ∧ emitted d' = emitted circle1
        ∧ PrimFloat.is_nan (getRadius leaflet (prim d')) = true.
Proof. eexists. split; [vm_compute; reflexivity|]. split; reflexivity. Qed.

(** The two assignments of [display = true] on a circle taken off its map,
    with the hazards of the reference instance. *)
Example display_true_twice_off_the_map :
  Raising.probe leaflet hazards (prim removed_circle) = probe_element Reference.path
  ∧ parentElement (dom (prim removed_circle) Reference.path) = None
  ∧ emissions (Raising.set_display leaflet hazards true ;;
               Raising.set_display leaflet hazards true) removed_circle
    = [displayChange true; displayChange true].
Proof. split; [reflexivity|]. split; [reflexivity|]. vm_compute. reflexivity. Qed.
